(** * Big Bang particle simulation (script.js): model and properties

    The development follows the script: the number type of JavaScript,
    the typed-array buffers, the two particle systems
    ([createExplosionParticles], [createGalaxyParticles]), the callback of
    the particle-count controller, and the frame function [animate].

    Numbers are idealised: arithmetic is the arithmetic of the reals, with
    the special values of IEEE-754 (the two infinities and NaN) kept, since
    the script can produce them (0/0 in the normalisation of a velocity).
    Rounding, overflow and the sign of zero are not modelled, and a store
    into a [Float32Array] keeps the value stored.

    Where a statement depends on rounding, module [IEEE] has the same lines
    of the script in the arithmetic of the script: binary64 numbers, and
    binary32 rounding at each store into a [Float32Array]. *)

From Stdlib Require Import Floats.PrimFloat Floats.SpecFloat Floats.FloatOps.
From Stdlib Require Import Reals Lra Lia.
From stdpp Require Import base list.

Set Warnings "-abstract-large-number".
Set Warnings "-inexact-float".

(** ** JavaScript numbers *)

Module JS.

#[global] Instance Rlt_decision (a b : R) : Decision (a < b)%R := Rlt_dec a b.
#[global] Instance Rle_decision (a b : R) : Decision (a <= b)%R := Rle_dec a b.
#[global] Instance Req_decision (a b : R) : Decision (a = b) := Req_dec_T a b.

Inductive number : Type :=
  | Fin (r : R)
  | PosInf
  | NegInf
  | NaN.

(** [-a]. *)
Definition flip (a : number) : number :=
  match a with
  | Fin r => Fin (- r)
  | PosInf => NegInf
  | NegInf => PosInf
  | NaN => NaN
  end.

(** The product of the finite number [r] and the infinity [inf]: [inf] with
    its sign multiplied by that of [r], and NaN when [r] is zero. *)
Definition signed (r : R) (inf : number) : number :=
  if decide (r = 0%R) then NaN
  else if decide (0 < r)%R then inf else flip inf.

Definition add (a b : number) : number :=
  match a, b with
  | NaN, _ | _, NaN => NaN
  | Fin x, Fin y => Fin (x + y)
  | PosInf, NegInf | NegInf, PosInf => NaN
  | PosInf, _ | _, PosInf => PosInf
  | NegInf, _ | _, NegInf => NegInf
  end.

Definition sub (a b : number) : number := add a (flip b).

Definition mul (a b : number) : number :=
  match a, b with
  | NaN, _ | _, NaN => NaN
  | Fin x, Fin y => Fin (x * y)
  | Fin x, (PosInf | NegInf) => signed x b
  | (PosInf | NegInf), Fin y => signed y a
  | PosInf, PosInf | NegInf, NegInf => PosInf
  | PosInf, NegInf | NegInf, PosInf => NegInf
  end.

Definition div (a b : number) : number :=
  match a, b with
  | NaN, _ | _, NaN => NaN
  | Fin x, Fin y =>
      if decide (y = 0%R) then signed x PosInf else Fin (x / y)
  | Fin _, (PosInf | NegInf) => Fin 0
  | (PosInf | NegInf), Fin y => if decide (y < 0)%R then flip a else a
  | (PosInf | NegInf), (PosInf | NegInf) => NaN
  end.

(** [a > b]; every comparison with NaN is false. *)
Definition gt (a b : number) : bool :=
  match a, b with
  | Fin x, Fin y => bool_decide (y < x)%R
  | PosInf, (Fin _ | NegInf) => true
  | Fin _, NegInf => true
  | _, _ => false
  end.

Definition le (a b : number) : bool :=
  match a, b with
  | Fin x, Fin y => bool_decide (x <= y)%R
  | NegInf, (Fin _ | NegInf | PosInf) => true
  | (Fin _ | PosInf), PosInf => true
  | _, _ => false
  end.

Definition isFinite (a : number) : bool :=
  match a with Fin _ => true | _ => false end.

Module Math.

Definition PI : number := Fin Rtrigo1.PI.

Definition sqrt (a : number) : number :=
  match a with
  | Fin x => if decide (x < 0)%R then NaN else Fin (R_sqrt.sqrt x)
  | PosInf => PosInf
  | NegInf | NaN => NaN
  end.

Definition sin (a : number) : number :=
  match a with Fin x => Fin (Rtrigo_def.sin x) | _ => NaN end.

Definition cos (a : number) : number :=
  match a with Fin x => Fin (Rtrigo_def.cos x) | _ => NaN end.

Definition acos (a : number) : number :=
  match a with
  | Fin x =>
      if decide (-1 <= x)%R
      then if decide (x <= 1)%R then Fin (Ratan.acos x) else NaN
      else NaN
  | _ => NaN
  end.

End Math.

End JS.

Import JS.

Declare Scope js_scope.
Delimit Scope js_scope with js.
Bind Scope js_scope with number.
Infix "+" := add : js_scope.
Infix "-" := sub : js_scope.
Infix "*" := mul : js_scope.
Infix "/" := div : js_scope.
Infix ">" := gt : js_scope.

(** ** Program state *)

(** The object pushed on [explosionVelocities]: [{ x: ..., y: ..., z: ... }]. *)
Module Vec.
Record t : Type := mk { x : number; y : number; z : number }.
End Vec.

(** [explosionParams] and [galaxyParams]. *)
Record ExplosionParams : Type := {
  particleCount : nat;
  expansionSpeed : number;
  explosionTime : number
}.

Record GalaxyParams : Type := {
  galaxyParticleCount : nat;   (* galaxyParams.particleCount *)
  galaxySpread : number;
  created : bool
}.

(** The three attributes of a [THREE.BufferGeometry] of the script, each the
    typed array behind its [BufferAttribute]. *)
Record BufferGeometry : Type := {
  position : list number;
  color : list number;
  size : list number
}.

(** [galaxyParticles]: a [THREE.Points] with its geometry and the one field
    of it the script writes, [rotation.y]. *)
Record GalaxyPoints : Type := {
  galaxyObject : nat;
  galaxyGeometry : BufferGeometry;
  rotation_y : number
}.

(** The global variables of the script.  Objects of the scene graph are
    named by numbers handed out from [nextObject].  [randomCalls] counts the
    calls of [Math.random] made so far, [galaxyCreations] the calls of
    [createGalaxyParticles]; the latter is bookkeeping for the properties
    below and is read by no function of the model. *)
Record World : Type := {
  explosionParams : ExplosionParams;
  galaxyParams : GalaxyParams;
  explosionVelocities : list Vec.t;
  explosionGeometry : BufferGeometry;
  explosionParticles : option nat;
  galaxyParticles : option GalaxyPoints;
  scene : list nat;
  nextObject : nat;
  randomCalls : nat;
  galaxyCreations : nat
}.

(** ** Control structure *)

(** How a function body ends: by running to its end, or by a [TypeError]
    thrown at a property read of [undefined]; either way with the state
    reached so far. *)
Inductive completion (A : Type) : Type :=
  | Normal (a : A)
  | TypeError (a : A).
Arguments Normal {A} a.
Arguments TypeError {A} a.

Definition state_of {A : Type} (c : completion A) : A :=
  match c with Normal a | TypeError a => a end.

Definition returns {A : Type} (c : completion A) : bool :=
  match c with Normal _ => true | TypeError _ => false end.

(** [for (let i = 0; i < n; i++) body], for a body that cannot throw. *)
Definition for_loop {St : Type} (n : nat) (body : nat -> St -> St) (s : St) : St :=
  fold_left (fun acc i => body i acc) (seq 0 n) s.

(** The same loop for a body that can throw: the first throw ends it. *)
Fixpoint for_each {St : Type} (body : nat -> St -> completion St)
    (indices : list nat) (s : St) : completion St :=
  match indices with
  | [] => Normal s
  | i :: rest =>
      match body i s with
      | Normal s' => for_each body rest s'
      | TypeError s' => TypeError s'
      end
  end.

Definition for_loop_throwing {St : Type} (n : nat)
    (body : nat -> St -> completion St) (s : St) : completion St :=
  for_each body (seq 0 n) s.

(** [new Float32Array(n)]: [n] zeros. *)
Definition Float32Array (n : nat) : list number := replicate n (Fin 0).

(** [a[3i] = x; a[3i+1] = y; a[3i+2] = z].  A store past the end of a typed
    array is ignored, as [<[ _ := _ ]>] does. *)
Definition store3 {A : Type} (i : nat) (x y z : A) (a : list A) : list A :=
  <[i * 3 + 2 := z]> (<[i * 3 + 1 := y]> (<[i * 3 := x]> a)).

(** The triple of cells of particle [i] in a buffer. *)
Definition cells {A : Type} (a : list A) (i : nat) : option (A * A * A) :=
  match a !! (i * 3), a !! (i * 3 + 1), a !! (i * 3 + 2) with
  | Some x, Some y, Some z => Some (x, y, z)
  | _, _, _ => None
  end.

(** The variables the loop of [createExplosionParticles] works on, and the
    variables the loop of [createGalaxyParticles] works on. *)
Record ExplosionBuild : Type := {
  eb_positions : list number;
  eb_colors : list number;
  eb_sizes : list number;
  eb_velocities : list Vec.t;
  eb_random : nat
}.

Record GalaxyBuild : Type := {
  gb_positions : list number;
  gb_colors : list number;
  gb_sizes : list number;
  gb_random : nat
}.

(** Assignments to one global variable, or to one field of a parameter
    object, the others kept. *)
Definition set_explosionParams (p : ExplosionParams) (w : World) : World :=
  {| explosionParams := p;
     galaxyParams := galaxyParams w;
     explosionVelocities := explosionVelocities w;
     explosionGeometry := explosionGeometry w;
     explosionParticles := explosionParticles w;
     galaxyParticles := galaxyParticles w;
     scene := scene w;
     nextObject := nextObject w;
     randomCalls := randomCalls w;
     galaxyCreations := galaxyCreations w |}.

Definition set_galaxyParams (p : GalaxyParams) (w : World) : World :=
  {| explosionParams := explosionParams w;
     galaxyParams := p;
     explosionVelocities := explosionVelocities w;
     explosionGeometry := explosionGeometry w;
     explosionParticles := explosionParticles w;
     galaxyParticles := galaxyParticles w;
     scene := scene w;
     nextObject := nextObject w;
     randomCalls := randomCalls w;
     galaxyCreations := galaxyCreations w |}.

Definition set_explosionPositions (ps : list number) (w : World) : World :=
  {| explosionParams := explosionParams w;
     galaxyParams := galaxyParams w;
     explosionVelocities := explosionVelocities w;
     explosionGeometry :=
       {| position := ps;
          color := color (explosionGeometry w);
          size := size (explosionGeometry w) |};
     explosionParticles := explosionParticles w;
     galaxyParticles := galaxyParticles w;
     scene := scene w;
     nextObject := nextObject w;
     randomCalls := randomCalls w;
     galaxyCreations := galaxyCreations w |}.

Definition set_galaxyParticles (g : option GalaxyPoints) (w : World) : World :=
  {| explosionParams := explosionParams w;
     galaxyParams := galaxyParams w;
     explosionVelocities := explosionVelocities w;
     explosionGeometry := explosionGeometry w;
     explosionParticles := explosionParticles w;
     galaxyParticles := g;
     scene := scene w;
     nextObject := nextObject w;
     randomCalls := randomCalls w;
     galaxyCreations := galaxyCreations w |}.

Definition set_explosionTime (t : number) (w : World) : World :=
  set_explosionParams
    {| particleCount := particleCount (explosionParams w);
       expansionSpeed := expansionSpeed (explosionParams w);
       explosionTime := t |} w.

Definition set_expansionSpeed (v : number) (w : World) : World :=
  set_explosionParams
    {| particleCount := particleCount (explosionParams w);
       expansionSpeed := v;
       explosionTime := explosionTime (explosionParams w) |} w.

Definition set_particleCount (n : nat) (w : World) : World :=
  set_explosionParams
    {| particleCount := n;
       expansionSpeed := expansionSpeed (explosionParams w);
       explosionTime := explosionTime (explosionParams w) |} w.

Definition set_created (c : bool) (w : World) : World :=
  set_galaxyParams
    {| galaxyParticleCount := galaxyParticleCount (galaxyParams w);
       galaxySpread := galaxySpread (galaxyParams w);
       created := c |} w.

Definition set_galaxySpread (v : number) (w : World) : World :=
  set_galaxyParams
    {| galaxyParticleCount := galaxyParticleCount (galaxyParams w);
       galaxySpread := v;
       created := created (galaxyParams w) |} w.

Definition set_galaxyParticleCount (n : nat) (w : World) : World :=
  set_galaxyParams
    {| galaxyParticleCount := n;
       galaxySpread := galaxySpread (galaxyParams w);
       created := created (galaxyParams w) |} w.

(** The state when the script starts [init]: the parameter objects as
    declared, no particle system yet (the geometry variables are
    [undefined]; no function reads them before they are assigned), and the
    two lights, objects 0 and 1, added to the scene by [init]. *)
Definition declared : World :=
  {| explosionParams :=
       {| particleCount := 10000;
          expansionSpeed := Fin 1.0;
          explosionTime := Fin 0.0 |};
     galaxyParams :=
       {| galaxyParticleCount := 5000;
          galaxySpread := Fin 500;
          created := false |};
     explosionVelocities := [];
     explosionGeometry := {| position := []; color := []; size := [] |};
     explosionParticles := None;
     galaxyParticles := None;
     scene := [0; 1];
     nextObject := 2;
     randomCalls := 0;
     galaxyCreations := 0 |}.

(** What happens between two frames, and a frame.  The controllers of
    dat.GUI are not part of the script; as the specification has it, the
    tunable fields are written from outside by the parameter panel.  A
    controller writes its field of the parameter object whenever its value
    changes; the particle-count controller of the explosion also calls the
    function given to [onFinishChange] when the change is finished. *)
Inductive event : Type :=
  | Frame (delta : number)
  | WriteExpansionSpeed (v : number)
  | WriteParticleCount (v : nat)
  | FinishParticleCount (v : nat)
  | WriteGalaxySpread (v : number)
  | WriteGalaxyParticleCount (v : nat).

Section Simulation.

(** The environment of the script: [Math_random k] is the result of the
    [k]-th call of [Math.random()] (counted from 0), and [setHSL h s l] the
    components [r], [g], [b] of a [THREE.Color] after [color.setHSL(h, s, l)]. *)
Variable Math_random : nat -> number.
Variable setHSL : number -> number -> number -> number * number * number.

(** *** createExplosionParticles *)

(** The position of a new explosion particle, from the three calls of
    [Math.random] starting at call [k]. *)
Definition explosionSeed (k : nat) : number * number * number :=
  let r := (Math_random k * Fin 0.1)%js in
  let theta := (Math_random (k + 1) * Math.PI * Fin 2)%js in
  let phi := Math.acos (Math_random (k + 2) * Fin 2 - Fin 1)%js in
  ((r * Math.sin phi * Math.cos theta)%js,
   (r * Math.sin phi * Math.sin theta)%js,
   (r * Math.cos phi)%js).

(** The raw direction [(vx, vy, vz)] of a velocity, from three calls. *)
Definition rawDirection (k : nat) : number * number * number :=
  ((Math_random k - Fin 0.5)%js,
   (Math_random (k + 1) - Fin 0.5)%js,
   (Math_random (k + 2) - Fin 0.5)%js).

Definition norm3 (v : number * number * number) : number :=
  let '(vx, vy, vz) := v in Math.sqrt (vx * vx + vy * vy + vz * vz)%js.

(** The velocity of a new explosion particle, from the six calls of
    [Math.random] starting at call [k]: three for the direction, then one
    for each component of the object pushed. *)
Definition explosionVelocity (k : nat) : Vec.t :=
  let '(vx, vy, vz) := rawDirection k in
  let len := norm3 (vx, vy, vz) in
  {| Vec.x := ((vx / len) * (Math_random (k + 3) * Fin 5 + Fin 2))%js;
     Vec.y := ((vy / len) * (Math_random (k + 4) * Fin 5 + Fin 2))%js;
     Vec.z := ((vz / len) * (Math_random (k + 5) * Fin 5 + Fin 2))%js |}.

(** One iteration of the loop. *)
Definition explosionBody (i : nat) (b : ExplosionBuild) : ExplosionBuild :=
  let k := eb_random b in
  let '(x, y, z) := explosionSeed k in
  let '(cr, cg, cb) := setHSL (Fin 0.1) (Fin 1.0) (Fin 0.8) in
  {| eb_positions := store3 i x y z (eb_positions b);
     eb_colors := store3 i cr cg cb (eb_colors b);
     eb_sizes := <[i := Fin 2.0]> (eb_sizes b);
     eb_velocities := eb_velocities b ++ [explosionVelocity (k + 3)];
     eb_random := k + 9 |}.

Definition createExplosionParticles (w : World) : World :=
  let n := particleCount (explosionParams w) in
  let b := for_loop n explosionBody
             {| eb_positions := Float32Array (n * 3);
                eb_colors := Float32Array (n * 3);
                eb_sizes := Float32Array n;
                eb_velocities := explosionVelocities w;
                eb_random := randomCalls w |} in
  {| explosionParams := explosionParams w;
     galaxyParams := galaxyParams w;
     explosionVelocities := eb_velocities b;
     explosionGeometry :=
       {| position := eb_positions b;
          color := eb_colors b;
          size := eb_sizes b |};
     explosionParticles := Some (nextObject w);
     galaxyParticles := galaxyParticles w;
     scene := scene w ++ [nextObject w];
     nextObject := S (nextObject w);
     randomCalls := eb_random b;
     galaxyCreations := galaxyCreations w |}.

(** The loop of [createExplosionParticles] run for [n] particles on new
    buffers and an empty velocity array, the random source at call [k]. *)
Definition newExplosion (n k : nat) : ExplosionBuild :=
  for_loop n explosionBody
    {| eb_positions := Float32Array (n * 3);
       eb_colors := Float32Array (n * 3);
       eb_sizes := Float32Array n;
       eb_velocities := [];
       eb_random := k |}.

(** *** createGalaxyParticles *)

(** The position of a new galaxy particle, from the three calls of
    [Math.random] starting at call [k]. *)
Definition galaxySeed (spread : number) (k : nat) : number * number * number :=
  let r := (Math_random k * spread + Fin 50)%js in
  let theta := (Math_random (k + 1) * Math.PI * Fin 2)%js in
  let phi := Math.acos (Math_random (k + 2) * Fin 2 - Fin 1)%js in
  ((r * Math.sin phi * Math.cos theta)%js,
   (r * Math.sin phi * Math.sin theta)%js,
   (r * Math.cos phi)%js).

Definition galaxyBody (spread : number) (i : nat) (b : GalaxyBuild) : GalaxyBuild :=
  let k := gb_random b in
  let '(x, y, z) := galaxySeed spread k in
  let '(cr, cg, cb) := setHSL (Fin 0.6) (Fin 0.7) (Fin 0.7) in
  {| gb_positions := store3 i x y z (gb_positions b);
     gb_colors := store3 i cr cg cb (gb_colors b);
     gb_sizes := <[i := Fin 2.5]> (gb_sizes b);
     gb_random := k + 3 |}.

Definition createGalaxyParticles (w : World) : World :=
  let n := galaxyParticleCount (galaxyParams w) in
  let b := for_loop n (galaxyBody (galaxySpread (galaxyParams w)))
             {| gb_positions := Float32Array (n * 3);
                gb_colors := Float32Array (n * 3);
                gb_sizes := Float32Array n;
                gb_random := randomCalls w |} in
  {| explosionParams := explosionParams w;
     galaxyParams := galaxyParams w;
     explosionVelocities := explosionVelocities w;
     explosionGeometry := explosionGeometry w;
     explosionParticles := explosionParticles w;
     galaxyParticles :=
       Some {| galaxyObject := nextObject w;
               galaxyGeometry :=
                 {| position := gb_positions b;
                    color := gb_colors b;
                    size := gb_sizes b |};
               rotation_y := Fin 0 |};
     scene := scene w ++ [nextObject w];
     nextObject := S (nextObject w);
     randomCalls := gb_random b;
     galaxyCreations := S (galaxyCreations w) |}.

(** *** setupGUI: the function given to onFinishChange *)

Definition scene_remove (o : option nat) (children : list nat) : list nat :=
  match o with
  | Some id => filter (fun c => c <> id) children
  | None => children
  end.

Definition particleCount_onFinishChange (value : nat) (w : World) : World :=
  createExplosionParticles
    {| explosionParams :=
         {| particleCount := value;
            expansionSpeed := expansionSpeed (explosionParams w);
            explosionTime := explosionTime (explosionParams w) |};
       galaxyParams := galaxyParams w;
       explosionVelocities := [];
       explosionGeometry := explosionGeometry w;
       explosionParticles := explosionParticles w;
       galaxyParticles := galaxyParticles w;
       scene := scene_remove (explosionParticles w) (scene w);
       nextObject := nextObject w;
       randomCalls := randomCalls w;
       galaxyCreations := galaxyCreations w |}.

(** *** init *)

Definition init : World := createExplosionParticles declared.

(** *** animate *)

(** One iteration of the position loop: [explosionVelocities[i]] is
    [undefined] past the end of the array, and reading [.x] of it throws
    before anything is stored. *)
Definition animateBody (velocities : list Vec.t) (t : number) (i : nat)
    (positions : list number) : completion (list number) :=
  match velocities !! i with
  | None => TypeError positions
  | Some v =>
      Normal (store3 i (Vec.x v * t)%js (Vec.y v * t)%js (Vec.z v * t)%js positions)
  end.

Definition rotateGalaxy (w : World) : World :=
  match galaxyParticles w with
  | Some g =>
      set_galaxyParticles
        (Some {| galaxyObject := galaxyObject g;
                 galaxyGeometry := galaxyGeometry g;
                 rotation_y := (rotation_y g + Fin 0.0005)%js |}) w
  | None => w
  end.

Definition animate (delta : number) (w : World) : completion World :=
  let t := (explosionTime (explosionParams w)
            + delta * expansionSpeed (explosionParams w))%js in
  let w1 := set_explosionTime t w in
  match for_loop_throwing (particleCount (explosionParams w1))
          (animateBody (explosionVelocities w1) t)
          (position (explosionGeometry w1)) with
  | TypeError ps => TypeError (set_explosionPositions ps w1)
  | Normal ps =>
      let w2 := set_explosionPositions ps w1 in
      let w3 :=
        if negb (created (galaxyParams w2)) && (t > Fin 10)%js
        then set_created true (createGalaxyParticles w2)
        else w2 in
      Normal (rotateGalaxy w3)
  end.

(** *** Runs *)

(** A frame that throws leaves the state it reached; the next frame was
    requested before, at the first line of [animate]. *)
Definition step (w : World) (e : event) : World :=
  match e with
  | Frame delta => state_of (animate delta w)
  | WriteExpansionSpeed v => set_expansionSpeed v w
  | WriteParticleCount v => set_particleCount v w
  | FinishParticleCount v => particleCount_onFinishChange v w
  | WriteGalaxySpread v => set_galaxySpread v w
  | WriteGalaxyParticleCount v => set_galaxyParticleCount v w
  end.

Definition run (w : World) (events : list event) : World :=
  fold_left step events w.

End Simulation.

Arguments Float32Array : simpl never.
Arguments for_loop : simpl never.
Arguments for_loop_throwing : simpl never.

(** ** Derived notions used by the properties *)

(** The two arrays the position loop of [animate] walks have the length the
    loop bound [explosionParams.particleCount] assumes. *)
Definition consistent (w : World) : Prop :=
  length (explosionVelocities w) = particleCount (explosionParams w) /\
  length (position (explosionGeometry w)) = particleCount (explosionParams w) * 3.

(** Length of a velocity, [sqrt(x*x + y*y + z*z)], and membership of a
    number in a closed interval. *)
Definition magnitude (v : Vec.t) : number :=
  Math.sqrt (Vec.x v * Vec.x v + Vec.y v * Vec.y v + Vec.z v * Vec.z v)%js.

Definition within (lo hi a : number) : bool := le lo a && le a hi.

(** The geometry of the galaxy, when there is one. *)
Definition galaxyBuffers (w : World) : option BufferGeometry :=
  galaxyGeometry <$> galaxyParticles w.

(** A run in which the particle count of the explosion changes only through
    finished changes, each followed by the recreation of the system. *)
Definition finished_changes_only (events : list event) : bool :=
  forallb (fun e => match e with WriteParticleCount _ => false | _ => true end)
    events.

Section Traces.

Variable Math_random : nat -> number.
Variable setHSL : number -> number -> number -> number * number * number.

(** The event is a tick after whose clock update the explosion clock
    exceeds the threshold. *)
Definition exceeds_threshold (w : World) (e : event) : bool :=
  match e with
  | Frame delta =>
      (explosionTime (explosionParams (step Math_random setHSL w e)) > Fin 10)%js
  | _ => false
  end.

(** The tick calls [createGalaxyParticles]: it runs to the test, the latch
    is open and the clock exceeds 10. *)
Definition fires (delta : number) (w : World) : bool :=
  returns (animate Math_random setHSL delta w)
  && negb (created (galaxyParams w))
  && exceeds_threshold w (Frame delta).

(** For each event of a run, the number of calls of
    [createGalaxyParticles] made by it, and whether it is a tick that
    exceeds the threshold. *)
Fixpoint creation_trace (w : World) (events : list event) : list nat :=
  match events with
  | [] => []
  | e :: rest =>
      (galaxyCreations (step Math_random setHSL w e) - galaxyCreations w)
        :: creation_trace (step Math_random setHSL w e) rest
  end.

Fixpoint threshold_trace (w : World) (events : list event) : list bool :=
  match events with
  | [] => []
  | e :: rest =>
      exceeds_threshold w e
        :: threshold_trace (step Math_random setHSL w e) rest
  end.

End Traces.

(** One call at the first [true] not preceded by a [true] (or by [seen]),
    none elsewhere. *)
Fixpoint first_only (seen : bool) (l : list bool) : list nat :=
  match l with
  | [] => []
  | b :: rest => (if b && negb seen then 1 else 0) :: first_only (seen || b) rest
  end.

Definition some_true (l : list bool) : bool := existsb (fun b => b) l.

(** ** Concrete environments and states *)

(** A random source whose every call returns 0.5, a colour conversion that
    returns the grey of the given lightness, and a random source whose
    every call returns 0.25. *)
Definition halves : nat -> number := fun _ => Fin 0.5.
Definition quarters : nat -> number := fun _ => Fin 0.25.
Definition grey : number -> number -> number -> number * number * number :=
  fun _ _ l => (l, l, l).

(** One explosion particle of velocity (1, 2, 3) at the origin, clock 0,
    expansion speed 2, no galaxy yet. *)
Definition one_particle : World :=
  {| explosionParams :=
       {| particleCount := 1;
          expansionSpeed := Fin 2;
          explosionTime := Fin 0 |};
     galaxyParams :=
       {| galaxyParticleCount := 1;
          galaxySpread := Fin 500;
          created := false |};
     explosionVelocities := [Vec.mk (Fin 1) (Fin 2) (Fin 3)];
     explosionGeometry :=
       {| position := [Fin 0; Fin 0; Fin 0];
          color := [Fin 1; Fin 1; Fin 1];
          size := [Fin 2] |};
     explosionParticles := Some 2;
     galaxyParticles := None;
     scene := [0; 1; 2];
     nextObject := 3;
     randomCalls := 9;
     galaxyCreations := 0 |}.

(** The same with the clock at 5. *)
Definition one_particle_at_5 : World := set_explosionTime (Fin 5) one_particle.

(** The same with a galaxy of one particle at (60, 0, 0). *)
Definition with_galaxy : World :=
  set_created true
    (set_galaxyParticles
       (Some {| galaxyObject := 3;
                galaxyGeometry :=
                  {| position := [Fin 60; Fin 0; Fin 0];
                     color := [Fin 1; Fin 1; Fin 1];
                     size := [Fin 2.5] |};
                rotation_y := Fin 0 |})
       one_particle).

(** ** Notions used by the further properties *)

(** The three cells a tick writes for a particle of velocity [v] at clock
    [t], and the position buffer made of them for all the velocities. *)
Definition scaled (t : number) (v : Vec.t) : list number :=
  [(Vec.x v * t)%js; (Vec.y v * t)%js; (Vec.z v * t)%js].

Definition positions_at (t : number) (velocities : list Vec.t) : list number :=
  concat (map (scaled t) velocities).

(** The number of ticks among the events of a run. *)
Fixpoint frame_count (events : list event) : nat :=
  match events with
  | [] => 0
  | Frame _ :: rest => S (frame_count rest)
  | _ :: rest => frame_count rest
  end.

(** An event with the inputs the script expects: the delta of a tick is a
    finite number that is not negative, as [clock.getDelta()] returns, and
    a value written by a controller of [setupGUI] lies between the minimum
    and the maximum given to [add], on the step given to [step]. *)
Definition gui_event (e : event) : Prop :=
  match e with
  | Frame delta => exists d : R, delta = Fin d /\ (0 <= d)%R
  | WriteExpansionSpeed v => exists s : R, v = Fin s /\ (0.1 <= s <= 5.0)%R
  | WriteParticleCount n | FinishParticleCount n =>
      ((1000 <=? n) && (n <=? 20000) && (n mod 1000 =? 0)) = true
  | WriteGalaxySpread v => exists s : R, v = Fin s /\ (100 <= s <= 1000)%R
  | WriteGalaxyParticleCount n =>
      ((1000 <=? n) && (n <=? 10000) && (n mod 500 =? 0)) = true
  end.

(** The expansion speed and the galaxy spread lie in the ranges of their
    controllers. *)
Definition speed_in_range (w : World) : Prop :=
  exists s : R, expansionSpeed (explosionParams w) = Fin s /\ (0.1 <= s <= 5.0)%R.

Definition spread_in_range (w : World) : Prop :=
  exists s : R, galaxySpread (galaxyParams w) = Fin s /\ (100 <= s <= 1000)%R.

(** Every particle of the galaxy, when there is one, is at a distance from
    the origin between [lo] and [hi]. *)
Definition galaxy_within (lo hi : R) (w : World) : Prop :=
  forall geometry, galaxyBuffers w = Some geometry ->
  forall i, i * 3 + 2 < length (position geometry) ->
  exists x y z : R,
    cells (position geometry) i = Some (Fin x, Fin y, Fin z) /\
    (lo <= sqrt (x * x + y * y + z * z) <= hi)%R.

(** The scene holds each object once, every object in it was handed out
    before, and the explosion system and the galaxy, when there is one, are
    two different objects of it. *)
Definition scene_ok (w : World) : Prop :=
  NoDup (scene w) /\
  (forall o, o ∈ scene w -> o < nextObject w) /\
  (exists e, explosionParticles w = Some e /\ e ∈ scene w /\
     forall g, galaxyParticles w = Some g ->
       galaxyObject g ∈ scene w /\ galaxyObject g <> e) /\
  length (scene w) = 3 + match galaxyParticles w with Some _ => 1 | None => 0 end.

(** A run of the panel: the expansion speed raised to 2, two ticks, the
    particle count changed to 2000, the galaxy spread to 300, a tick. *)
Definition panel_run : list event :=
  [WriteExpansionSpeed (Fin 2); Frame (Fin 3); Frame (Fin 4);
   WriteParticleCount 2000; FinishParticleCount 2000;
   WriteGalaxySpread (Fin 300); Frame (Fin 0.5)].

(** Two explosion particles under a count lowered to 1 by its controller,
    the change not finished; and one particle under a count raised to 2. *)
Definition lowered_count : World :=
  {| explosionParams :=
       {| particleCount := 1;
          expansionSpeed := Fin 1;
          explosionTime := Fin 4 |};
     galaxyParams :=
       {| galaxyParticleCount := 1;
          galaxySpread := Fin 500;
          created := false |};
     explosionVelocities :=
       [Vec.mk (Fin 1) (Fin 2) (Fin 2); Vec.mk (Fin 0) (Fin 3) (Fin 0)];
     explosionGeometry :=
       {| position := [Fin 4; Fin 8; Fin 8; Fin 0; Fin 12; Fin 0];
          color := [Fin 1; Fin 1; Fin 1; Fin 1; Fin 1; Fin 1];
          size := [Fin 2; Fin 2] |};
     explosionParticles := Some 2;
     galaxyParticles := None;
     scene := [0; 1; 2];
     nextObject := 3;
     randomCalls := 18;
     galaxyCreations := 0 |}.

Definition raised_count : World := set_particleCount 2 one_particle.

(** ** Runs in which every tick returns *)

Section Returning.

Variable Math_random : nat -> number.
Variable setHSL : number -> number -> number -> number * number * number.

(** No tick of the run throws. *)
Fixpoint ticks_return (w : World) (events : list event) : Prop :=
  match events with
  | [] => True
  | e :: rest =>
      match e with
      | Frame delta => returns (animate Math_random setHSL delta w) = true
      | _ => True
      end /\
      ticks_return (step Math_random setHSL w e) rest
  end.

End Returning.

(** ** The arithmetic of the script: binary64 numbers and float32 buffers

    The definitions above compute with exact numbers.  The ones of this
    module compute as the script does, for the statements that depend on
    rounding: a number is a binary64 float, and a store into a
    [Float32Array] rounds it to binary32. *)

Module IEEE.

(** The number a [Float32Array] holds after [x] is stored into it: [x]
    rounded to binary32 (24 bits of precision, exponents below 128), to
    nearest, ties to even; infinities and NaN are kept. *)
Definition fround (x : float) : float :=
  match Prim2SF x with
  | S754_finite s m e =>
      SF2Prim (binary_normalize 24 128 (cond_Zopp s (Zpos m)) e s)
  | _ => x
  end.

(** An element of [explosionVelocities], and the part of the state that
    lines 297 to 308 of [animate] read and write. *)
Record Velocity : Type := { x : float; y : float; z : float }.

Record Explosion : Type := {
  particleCount : nat;
  expansionSpeed : float;
  explosionTime : float;
  explosionVelocities : list Velocity;
  position : list float
}.

(** One iteration of the position loop. *)
Definition animateBody (velocities : list Velocity) (t : float) (i : nat)
    (positions : list float) : completion (list float) :=
  match velocities !! i with
  | None => TypeError positions
  | Some v =>
      Normal (store3 i (fround (x v * t)) (fround (y v * t)) (fround (z v * t))
                positions)
  end.

(** Lines 297 to 308 of [animate]: the clock and the position loop. *)
Definition animate (delta : float) (e : Explosion) : completion Explosion :=
  let t := (explosionTime e + delta * expansionSpeed e)%float in
  match for_loop_throwing (particleCount e)
          (animateBody (explosionVelocities e) t) (position e) with
  | Normal ps =>
      Normal {| particleCount := particleCount e;
                expansionSpeed := expansionSpeed e;
                explosionTime := t;
                explosionVelocities := explosionVelocities e;
                position := ps |}
  | TypeError ps =>
      TypeError {| particleCount := particleCount e;
                   expansionSpeed := expansionSpeed e;
                   explosionTime := t;
                   explosionVelocities := explosionVelocities e;
                   position := ps |}
  end.

(** [Math.sin], [Math.cos] and [Math.acos], which ECMAScript leaves to the
    implementation to approximate, and [Math.PI]. *)
Record MathLibrary : Type := {
  sin : float -> float;
  cos : float -> float;
  acos : float -> float
}.

Definition PI : float := 3.141592653589793%float.

(** Lines 215 to 221 of [createGalaxyParticles]: the position of a galaxy
    particle from three calls of [Math.random]; and lines 223 to 225: the
    three cells the buffer holds of it. *)
Definition galaxySeed (lib : MathLibrary) (random : nat -> float)
    (spread : float) (k : nat) : float * float * float :=
  let r := (random k * spread + 50)%float in
  let theta := (random (k + 1)%nat * PI * 2)%float in
  let phi := acos lib (random (k + 2)%nat * 2 - 1)%float in
  ((r * sin lib phi * cos lib theta)%float,
   (r * sin lib phi * sin lib theta)%float,
   (r * cos lib phi)%float).

Definition galaxyStored (lib : MathLibrary) (random : nat -> float)
    (spread : float) (k : nat) : float * float * float :=
  let '(px, py, pz) := galaxySeed lib random spread k in
  (fround px, fround py, fround pz).

(** The exact value of a finite float as a multiple of [2 ^ u], when it is
    one. *)
Definition in_units (u : Z) (f : float) : option Z :=
  match Prim2SF f with
  | S754_zero _ => Some 0%Z
  | S754_finite s m e =>
      if (u <=? e)%Z then Some (cond_Zopp s (Zpos m) * 2 ^ (e - u))%Z else None
  | _ => None
  end.

(** A library that returns, at the five arguments used below, the doubles
    nearest to the exact values of the functions there. *)
Definition nearest : MathLibrary :=
  {| sin := fun a =>
       if (a =? 2.214297435588181)%float then 0.8000000000000002%float
       else if (a =? 0.6283185307179586)%float then 0.5877852522924731%float
       else nan;
     cos := fun a =>
       if (a =? 2.214297435588181)%float then (-0.5999999999999999)%float
       else if (a =? 0.6283185307179586)%float then 0.8090169943749475%float
       else nan;
     acos := fun a =>
       if (a =? -0.6)%float then 2.214297435588181%float else nan |}.

(** A random source whose first three calls return 0, 0.1 and 0.2. *)
Definition draws (k : nat) : float :=
  match k with
  | 0 => 0%float
  | 1 => 0.1%float
  | 2 => 0.2%float
  | _ => 0.5%float
  end.

(** One particle of velocity (2.1, 3.3, 0.7) at the origin, clock 0,
    expansion speed 1. *)
Definition one_particle : Explosion :=
  {| particleCount := 1;
     expansionSpeed := 1%float;
     explosionTime := 0%float;
     explosionVelocities := [{| x := 2.1%float; y := 3.3%float; z := 0.7%float |}];
     position := [0%float; 0%float; 0%float] |}.

End IEEE.

(** ** Arithmetic of numbers *)

Ltac number_cases :=
  repeat match goal with
    | |- context [decide ?P] => destruct (decide P)
    | |- context [bool_decide ?P] => destruct (bool_decide_reflect P)
    | H : context [decide ?P] |- _ => destruct (decide P)
    end.

Lemma mul_NaN_r (a : number) : (a * NaN)%js = NaN.
Proof. by destruct a. Qed.

Lemma add_NaN_r (a : number) : (a + NaN)%js = NaN.
Proof. by destruct a. Qed.

Lemma signed_not_finite (r : R) (a : number) :
  isFinite a = false -> isFinite (signed r a) = false.
Proof. unfold signed. destruct a; intros; number_cases; done. Qed.

Lemma mul_not_finite_l (a b : number) :
  isFinite a = false -> isFinite (a * b)%js = false.
Proof.
  destruct a, b; simpl; try done; intros _; by apply signed_not_finite.
Qed.

Lemma mul_not_finite_r (a b : number) :
  isFinite b = false -> isFinite (a * b)%js = false.
Proof.
  destruct a, b; simpl; try done; intros _; by apply signed_not_finite.
Qed.

Lemma add_not_finite_r (a b : number) :
  isFinite b = false -> isFinite (a + b)%js = false.
Proof. by destruct a, b. Qed.

Lemma gt_irrefl (a : number) : (a > a)%js = false.
Proof. destruct a; simpl; try done. number_cases; [lra | done]. Qed.

(** ** Loops and stores *)

Lemma for_loop_0 {St : Type} (body : nat -> St -> St) (s : St) :
  for_loop 0 body s = s.
Proof. reflexivity. Qed.

Lemma for_loop_S {St : Type} (n : nat) (body : nat -> St -> St) (s : St) :
  for_loop (S n) body s = body n (for_loop n body s).
Proof. unfold for_loop. by rewrite seq_S, fold_left_app. Qed.

Lemma for_each_snoc {St : Type} (body : nat -> St -> completion St)
    (l : list nat) (i : nat) (s : St) :
  for_each body (l ++ [i]) s =
    match for_each body l s with
    | Normal s' => body i s'
    | TypeError s' => TypeError s'
    end.
Proof.
  revert s. induction l as [|j l IH]; intros s; simpl.
  - by destruct (body i s).
  - destruct (body j s); [apply IH | done].
Qed.

Lemma for_loop_throwing_0 {St : Type} (body : nat -> St -> completion St) (s : St) :
  for_loop_throwing 0 body s = Normal s.
Proof. reflexivity. Qed.

Lemma for_loop_throwing_S {St : Type} (n : nat)
    (body : nat -> St -> completion St) (s : St) :
  for_loop_throwing (S n) body s =
    match for_loop_throwing n body s with
    | Normal s' => body n s'
    | TypeError s' => TypeError s'
    end.
Proof. unfold for_loop_throwing. by rewrite seq_S, for_each_snoc. Qed.

Lemma length_Float32Array (n : nat) : length (Float32Array n) = n.
Proof. apply length_replicate. Qed.

Lemma length_store3 {A : Type} (i : nat) (x y z : A) (a : list A) :
  length (store3 i x y z a) = length a.
Proof. unfold store3. by rewrite !length_insert. Qed.

Lemma store3_lookup {A : Type} (i : nat) (x y z : A) (a : list A) :
  i * 3 + 2 < length a ->
  store3 i x y z a !! (i * 3) = Some x /\
  store3 i x y z a !! (i * 3 + 1) = Some y /\
  store3 i x y z a !! (i * 3 + 2) = Some z.
Proof.
  intros Hlen. unfold store3. repeat split.
  - rewrite !list_lookup_insert_ne by lia.
    apply list_lookup_insert_eq. lia.
  - rewrite list_lookup_insert_ne by lia.
    apply list_lookup_insert_eq. rewrite length_insert. lia.
  - apply list_lookup_insert_eq. rewrite !length_insert. lia.
Qed.

Lemma store3_lookup_other {A : Type} (i j : nat) (x y z : A) (a : list A) :
  j < i * 3 \/ i * 3 + 3 <= j ->
  store3 i x y z a !! j = a !! j.
Proof.
  intros Hj. unfold store3. by rewrite !list_lookup_insert_ne by lia.
Qed.

Lemma cells_store3 {A : Type} (i : nat) (x y z : A) (a : list A) :
  i * 3 + 2 < length a -> cells (store3 i x y z a) i = Some (x, y, z).
Proof.
  intros Hlen. unfold cells.
  destruct (store3_lookup i x y z a Hlen) as (-> & -> & ->). done.
Qed.

Lemma cells_store3_other {A : Type} (i j : nat) (x y z : A) (a : list A) :
  i <> j -> cells (store3 i x y z a) j = cells a j.
Proof.
  intros Hij. unfold cells. by rewrite !store3_lookup_other by lia.
Qed.

(** ** The position loop of animate *)

Section Properties.

Variable Math_random : nat -> number.
Variable setHSL : number -> number -> number -> number * number * number.

Lemma animate_loop_returns (velocities : list Vec.t) (t : number) (n : nat)
    (ps : list number) :
  n <= length velocities ->
  n * 3 <= length ps ->
  exists ps',
    for_loop_throwing n (animateBody velocities t) ps = Normal ps' /\
    length ps' = length ps /\
    (forall i v, i < n -> velocities !! i = Some v ->
       cells ps' i = Some ((Vec.x v * t)%js, (Vec.y v * t)%js, (Vec.z v * t)%js)) /\
    (forall j, n * 3 <= j -> ps' !! j = ps !! j).
Proof.
  induction n as [|n IH]; intros Hv Hp.
  - exists ps. rewrite for_loop_throwing_0. repeat split; try done. intros; lia.
  - destruct IH as (ps1 & Hrun & Hlen & Hcells & Hrest); [lia | lia |].
    rewrite for_loop_throwing_S, Hrun. unfold animateBody.
    destruct (lookup_lt_is_Some_2 velocities n) as [vn Hvn]; [lia|].
    rewrite Hvn. eexists; split; [reflexivity|].
    split; [by rewrite length_store3|]. split.
    + intros i v Hi Hiv. destruct (decide (i = n)) as [->|Hne].
      * rewrite Hvn in Hiv. injection Hiv as <-.
        apply cells_store3. lia.
      * rewrite cells_store3_other by done. apply Hcells; [lia | done].
    + intros j Hj. rewrite store3_lookup_other by lia. apply Hrest. lia.
Qed.

Lemma animate_loop_throws (velocities : list Vec.t) (t : number) (n : nat)
    (ps : list number) :
  length velocities < n ->
  exists ps', for_loop_throwing n (animateBody velocities t) ps = TypeError ps'.
Proof.
  induction n as [|n IH]; intros Hv; [lia|].
  rewrite for_loop_throwing_S.
  destruct (decide (length velocities < n)) as [Hlt|Hge].
  - destruct (IH Hlt) as [ps' ->]. by exists ps'.
  - destruct (for_loop_throwing n (animateBody velocities t) ps) as [ps1|ps1];
      [|by exists ps1].
    unfold animateBody. rewrite lookup_ge_None_2 by lia. by exists ps1.
Qed.

(** ** Frames on a consistent state *)

Lemma animate_consistent (delta : number) (w : World) :
  consistent w ->
  exists w',
    animate Math_random setHSL delta w = Normal w' /\
    explosionVelocities w' = explosionVelocities w /\
    particleCount (explosionParams w') = particleCount (explosionParams w) /\
    expansionSpeed (explosionParams w') = expansionSpeed (explosionParams w) /\
    explosionTime (explosionParams w') =
      (explosionTime (explosionParams w)
       + delta * expansionSpeed (explosionParams w))%js /\
    length (position (explosionGeometry w')) =
      length (position (explosionGeometry w)) /\
    (forall i v, explosionVelocities w !! i = Some v ->
       cells (position (explosionGeometry w')) i =
         Some ((Vec.x v * explosionTime (explosionParams w'))%js,
               (Vec.y v * explosionTime (explosionParams w'))%js,
               (Vec.z v * explosionTime (explosionParams w'))%js)).
Proof.
  intros [Hv Hp]. unfold animate. simpl.
  set (t := (explosionTime (explosionParams w)
             + delta * expansionSpeed (explosionParams w))%js).
  destruct (animate_loop_returns (explosionVelocities w) t
              (particleCount (explosionParams w))
              (position (explosionGeometry w)))
    as (ps' & -> & Hlen & Hcells & _); [lia | lia |].
  eexists; split; [reflexivity|].
  assert (Hi : forall i v, explosionVelocities w !! i = Some v ->
                 i < particleCount (explosionParams w)).
  { intros i v Hiv. rewrite <- Hv. by eapply lookup_lt_Some. }
  destruct (negb (created (galaxyParams w)) && (t > Fin 10)%js);
    unfold rotateGalaxy; simpl; destruct (galaxyParticles w); simpl;
    repeat split; try done; intros i v Hiv; apply Hcells; eauto.
Qed.

Lemma animate_inconsistent (delta : number) (w : World) :
  length (explosionVelocities w) < particleCount (explosionParams w) ->
  returns (animate Math_random setHSL delta w) = false.
Proof.
  intros Hlt. unfold animate. simpl.
  destruct (animate_loop_throws (explosionVelocities w)
              (explosionTime (explosionParams w)
               + delta * expansionSpeed (explosionParams w))%js
              (particleCount (explosionParams w))
              (position (explosionGeometry w)) Hlt) as [ps' ->].
  reflexivity.
Qed.

(** ** The creation loops *)

Lemma explosionBody_fields (i : nat) (b : ExplosionBuild) :
  let b' := explosionBody Math_random setHSL i b in
  eb_random b' = eb_random b + 9 /\
  eb_velocities b' =
    eb_velocities b ++ [explosionVelocity Math_random (eb_random b + 3)] /\
  length (eb_positions b') = length (eb_positions b) /\
  length (eb_colors b') = length (eb_colors b) /\
  length (eb_sizes b') = length (eb_sizes b).
Proof.
  unfold explosionBody.
  destruct (explosionSeed _ _) as [[x y] z].
  destruct (setHSL _ _ _) as [[cr cg] cb]. simpl.
  by rewrite !length_store3, length_insert.
Qed.

Lemma explosion_loop (n : nat) (b0 : ExplosionBuild) :
  let b := for_loop n (explosionBody Math_random setHSL) b0 in
  eb_random b = eb_random b0 + 9 * n /\
  eb_velocities b =
    eb_velocities b0
      ++ map (fun i => explosionVelocity Math_random (eb_random b0 + 9 * i + 3))
           (seq 0 n) /\
  length (eb_positions b) = length (eb_positions b0) /\
  length (eb_colors b) = length (eb_colors b0) /\
  length (eb_sizes b) = length (eb_sizes b0).
Proof.
  induction n as [|n IH]; cbv zeta.
  - rewrite for_loop_0. simpl. rewrite app_nil_r. repeat split. lia.
  - rewrite for_loop_S. cbv zeta in IH.
    destruct IH as (Hr & Hv & Hp & Hc & Hs).
    destruct (explosionBody_fields n
                (for_loop n (explosionBody Math_random setHSL) b0))
      as (-> & -> & -> & -> & ->).
    rewrite Hr, Hv, seq_S, map_app. simpl. rewrite <- app_assoc.
    repeat split; try done; lia.
Qed.

Lemma galaxyBody_fields (spread : number) (i : nat) (b : GalaxyBuild) :
  let b' := galaxyBody Math_random setHSL spread i b in
  gb_random b' = gb_random b + 3 /\
  length (gb_positions b') = length (gb_positions b) /\
  length (gb_colors b') = length (gb_colors b) /\
  length (gb_sizes b') = length (gb_sizes b) /\
  (i * 3 + 2 < length (gb_positions b) ->
   cells (gb_positions b') i =
     Some (galaxySeed Math_random spread (gb_random b))) /\
  (forall j, i <> j -> cells (gb_positions b') j = cells (gb_positions b) j).
Proof.
  unfold galaxyBody.
  destruct (galaxySeed _ _ _) as [[x y] z].
  destruct (setHSL _ _ _) as [[cr cg] cb]. simpl.
  rewrite !length_store3, length_insert. repeat split; try done.
  - intros Hlen. by apply cells_store3.
  - intros j Hj. by apply cells_store3_other.
Qed.

Lemma galaxy_loop (spread : number) (n : nat) (b0 : GalaxyBuild) :
  n * 3 <= length (gb_positions b0) ->
  let b := for_loop n (galaxyBody Math_random setHSL spread) b0 in
  gb_random b = gb_random b0 + 3 * n /\
  length (gb_positions b) = length (gb_positions b0) /\
  length (gb_colors b) = length (gb_colors b0) /\
  length (gb_sizes b) = length (gb_sizes b0) /\
  (forall i, i < n ->
     cells (gb_positions b) i =
       Some (galaxySeed Math_random spread (gb_random b0 + 3 * i))).
Proof.
  induction n as [|n IH]; cbv zeta; intros Hlen.
  - rewrite for_loop_0. repeat split; intros; lia.
  - rewrite for_loop_S. cbv zeta in IH.
    destruct IH as (Hr & Hp & Hc & Hs & Hcells); [lia|].
    destruct (galaxyBody_fields spread n
                (for_loop n (galaxyBody Math_random setHSL spread) b0))
      as (-> & -> & -> & -> & Hnew & Hold).
    repeat split; try done; try lia.
    intros i Hi. destruct (decide (i = n)) as [->|Hne].
    + rewrite Hnew by lia. by rewrite Hr.
    + rewrite Hold by done. apply Hcells. lia.
Qed.

Lemma createExplosionParticles_velocities (w : World) :
  explosionVelocities (createExplosionParticles Math_random setHSL w) =
    explosionVelocities w
      ++ map (fun i => explosionVelocity Math_random (randomCalls w + 9 * i + 3))
           (seq 0 (particleCount (explosionParams w))).
Proof.
  unfold createExplosionParticles. simpl.
  match goal with |- context [for_loop ?n ?f ?b] =>
    destruct (explosion_loop n b) as (_ & -> & _) end.
  reflexivity.
Qed.

Lemma createExplosionParticles_lengths (w : World) :
  let w' := createExplosionParticles Math_random setHSL w in
  length (position (explosionGeometry w')) = particleCount (explosionParams w) * 3 /\
  length (color (explosionGeometry w')) = particleCount (explosionParams w) * 3 /\
  length (size (explosionGeometry w')) = particleCount (explosionParams w).
Proof.
  unfold createExplosionParticles. simpl.
  match goal with |- context [for_loop ?n ?f ?b] =>
    destruct (explosion_loop n b) as (_ & _ & -> & -> & ->) end.
  simpl. by rewrite !length_Float32Array.
Qed.

Lemma createExplosionParticles_consistent (w : World) :
  explosionVelocities w = [] ->
  consistent (createExplosionParticles Math_random setHSL w).
Proof.
  intros Hnil. split.
  - rewrite createExplosionParticles_velocities, Hnil. simpl.
    by rewrite length_map, length_seq.
  - exact (proj1 (createExplosionParticles_lengths w)).
Qed.

Lemma init_consistent : consistent (init Math_random setHSL).
Proof. by apply createExplosionParticles_consistent. Qed.

Lemma onFinishChange_consistent (value : nat) (w : World) :
  consistent (particleCount_onFinishChange Math_random setHSL value w).
Proof. by apply createExplosionParticles_consistent. Qed.

Lemma createGalaxyParticles_geometry (w : World) :
  exists g,
    galaxyParticles (createGalaxyParticles Math_random setHSL w) = Some g /\
    length (position (galaxyGeometry g)) = galaxyParticleCount (galaxyParams w) * 3 /\
    length (color (galaxyGeometry g)) = galaxyParticleCount (galaxyParams w) * 3 /\
    length (size (galaxyGeometry g)) = galaxyParticleCount (galaxyParams w) /\
    (forall i, i < galaxyParticleCount (galaxyParams w) ->
       cells (position (galaxyGeometry g)) i =
         Some (galaxySeed Math_random (galaxySpread (galaxyParams w))
                 (randomCalls w + 3 * i))).
Proof.
  unfold createGalaxyParticles. simpl. eexists; split; [reflexivity|]. simpl.
  match goal with |- context [for_loop ?n (galaxyBody _ _ ?s) ?b] =>
    destruct (galaxy_loop s n b) as (_ & -> & -> & -> & Hcells) end.
  { simpl. by rewrite length_Float32Array. }
  simpl. rewrite !length_Float32Array. repeat split; try done.
Qed.

(** ** The galaxy latch *)

Lemma animate_clock (delta : number) (w : World) :
  explosionTime (explosionParams (state_of (animate Math_random setHSL delta w))) =
    (explosionTime (explosionParams w)
     + delta * expansionSpeed (explosionParams w))%js.
Proof.
  unfold animate. simpl.
  destruct (for_loop_throwing _ _ _); simpl; [|done].
  destruct (negb (created (galaxyParams w)) && _);
    unfold rotateGalaxy; simpl; by destruct (galaxyParticles w).
Qed.

Lemma animate_latch (delta : number) (w : World) :
  let w' := state_of (animate Math_random setHSL delta w) in
  created (galaxyParams w') =
    created (galaxyParams w) || fires Math_random setHSL delta w /\
  galaxyCreations w' =
    galaxyCreations w + (if fires Math_random setHSL delta w then 1 else 0) /\
  (created (galaxyParams w) = true -> galaxyBuffers w' = galaxyBuffers w).
Proof.
  unfold fires, exceeds_threshold, step. rewrite animate_clock.
  unfold animate, galaxyBuffers. simpl.
  destruct (for_loop_throwing _ _ _) as [ps|ps]; simpl.
  - destruct (created (galaxyParams w)) eqn:Hc; simpl.
    + unfold rotateGalaxy; simpl.
      destruct (galaxyParticles w) eqn:Hg; simpl; rewrite ?Hc, ?Hg;
        repeat split; (lia || done).
    + destruct (_ > Fin 10)%js; unfold rotateGalaxy; simpl.
      * repeat split; (lia || done).
      * destruct (galaxyParticles w) eqn:Hg; simpl; rewrite ?Hc, ?Hg;
          repeat split; (lia || done).
  - rewrite orb_false_r. repeat split; lia.
Qed.

Lemma step_consistent (w : World) (e : event) :
  consistent w ->
  finished_changes_only [e] = true ->
  consistent (step Math_random setHSL w e).
Proof.
  intros Hw He. destruct e as [delta|v|v|v|v|v]; simpl in *; try done.
  - destruct (animate_consistent delta w Hw)
      as (w' & -> & Hv & Hn & _ & _ & Hp & _).
    simpl. destruct Hw as [Hw1 Hw2]. split; congruence.
  - apply onFinishChange_consistent.
Qed.

Lemma step_latch (w : World) (e : event) :
  let now :=
    match e with Frame delta => fires Math_random setHSL delta w | _ => false end in
  created (galaxyParams (step Math_random setHSL w e)) =
    created (galaxyParams w) || now /\
  galaxyCreations (step Math_random setHSL w e) =
    galaxyCreations w + (if now then 1 else 0) /\
  (created (galaxyParams w) = true ->
   galaxyBuffers (step Math_random setHSL w e) = galaxyBuffers w).
Proof.
  destruct e as [delta|v|v|v|v|v]; simpl;
    try (rewrite orb_false_r; repeat split; lia).
  apply animate_latch.
Qed.

Lemma run_cons (w : World) (e : event) (events : list event) :
  run Math_random setHSL w (e :: events) =
    run Math_random setHSL (step Math_random setHSL w e) events.
Proof. reflexivity. Qed.

Lemma run_app (w : World) (events1 events2 : list event) :
  run Math_random setHSL w (events1 ++ events2) =
    run Math_random setHSL (run Math_random setHSL w events1) events2.
Proof. apply fold_left_app. Qed.

Lemma run_consistent (w : World) (events : list event) :
  consistent w ->
  finished_changes_only events = true ->
  consistent (run Math_random setHSL w events).
Proof.
  revert w. induction events as [|e events IH]; intros w Hw He; [done|].
  rewrite run_cons. simpl in He. apply andb_prop in He as [He1 He2].
  apply IH; [|done]. apply step_consistent; [done|]. simpl. by rewrite He1.
Qed.

Lemma run_latched (w : World) (events : list event) :
  created (galaxyParams w) = true ->
  created (galaxyParams (run Math_random setHSL w events)) = true /\
  galaxyCreations (run Math_random setHSL w events) = galaxyCreations w /\
  galaxyBuffers (run Math_random setHSL w events) = galaxyBuffers w.
Proof.
  revert w. induction events as [|e events IH]; intros w Hc; [done|].
  rewrite run_cons.
  destruct (step_latch w e) as (Hc' & Hn & Hg).
  assert (Hnow : match e with
                 | Frame delta => fires Math_random setHSL delta w
                 | _ => false
                 end = false).
  { destruct e; try done. unfold fires. rewrite Hc. by rewrite andb_false_r. }
  rewrite Hnow in Hc', Hn. rewrite Hc in Hc'. simpl in Hc'.
  destruct (IH _ Hc') as (-> & -> & ->). repeat split; [lia | by apply Hg].
Qed.

Lemma traces_agree (w : World) (events : list event) :
  consistent w ->
  finished_changes_only events = true ->
  creation_trace Math_random setHSL w events =
    first_only (created (galaxyParams w))
      (threshold_trace Math_random setHSL w events) /\
  galaxyCreations (run Math_random setHSL w events) =
    galaxyCreations w
    + (if negb (created (galaxyParams w))
          && some_true (threshold_trace Math_random setHSL w events)
       then 1 else 0).
Proof.
  revert w. induction events as [|e events IH]; intros w Hw He.
  - simpl. rewrite andb_false_r. split; [done | lia].
  - simpl in He. apply andb_prop in He as [He1 He2].
    assert (Hw' : consistent (step Math_random setHSL w e)).
    { apply step_consistent; [done|]. simpl. by rewrite He1. }
    destruct (IH _ Hw' He2) as [IHt IHn].
    destruct (step_latch w e) as (Hc & Hn & _).
    assert (Hnow : match e with
                   | Frame delta => fires Math_random setHSL delta w
                   | _ => false
                   end =
                   negb (created (galaxyParams w))
                   && exceeds_threshold Math_random setHSL w e).
    { destruct e as [delta|v|v|v|v|v];
        try (simpl; by rewrite andb_false_r).
      unfold fires.
      destruct (animate_consistent delta w Hw) as (w' & Hret & _).
      by rewrite Hret. }
    rewrite Hnow in Hc, Hn.
    rewrite run_cons. unfold some_true in *.
    cbn [creation_trace threshold_trace first_only existsb].
    rewrite IHt, IHn, Hc, Hn.
    destruct (created (galaxyParams w)), (exceeds_threshold _ _ w e); simpl;
      (split; [f_equal; lia | try lia]).
    all: destruct (existsb _ _); lia.
Qed.

(** ** Geometry of the samples *)

Lemma shell_distance (r a b c d : R) :
  (0 <= r)%R ->
  (a * a + b * b = 1)%R ->
  (c * c + d * d = 1)%R ->
  sqrt (r * a * c * (r * a * c) + r * a * d * (r * a * d) + r * b * (r * b)) = r.
Proof.
  intros Hr Hab Hcd.
  replace (r * a * c * (r * a * c) + r * a * d * (r * a * d) + r * b * (r * b))%R
    with (r * r * (a * a * (c * c + d * d) + b * b))%R by ring.
  rewrite Hcd, Rmult_1_r, Hab, Rmult_1_r. by apply sqrt_square.
Qed.

Lemma sin_cos_1 (t : R) : (sin t * sin t + cos t * cos t = 1)%R.
Proof. exact (sin2_cos2 t). Qed.

Lemma galaxySeed_distance (s : R) (k : nat) (u1 u2 u3 : R) :
  Math_random k = Fin u1 ->
  Math_random (k + 1) = Fin u2 ->
  Math_random (k + 2) = Fin u3 ->
  (0 <= u1 < 1)%R ->
  (0 <= u3 < 1)%R ->
  (0 <= s)%R ->
  exists x y z : R,
    galaxySeed Math_random (Fin s) k = (Fin x, Fin y, Fin z) /\
    (50 <= sqrt (x * x + y * y + z * z) <= 50 + s)%R.
Proof.
  intros H1 H2 H3 Hu1 Hu3 Hs. unfold galaxySeed. rewrite H1, H2, H3. simpl.
  destruct (decide (-1 <= u3 * 2 + - (1))%R) as [_|Hlo]; [|lra].
  destruct (decide (u3 * 2 + - (1) <= 1)%R) as [_|Hhi]; [|lra].
  do 3 eexists. split; [reflexivity|].
  rewrite shell_distance;
    [nra | nra | apply sin_cos_1 | rewrite Rplus_comm; apply sin_cos_1].
Qed.

Lemma normalised_unit (vx vy vz : R) :
  let len := sqrt (vx * vx + vy * vy + vz * vz) in
  (0 < vx * vx + vy * vy + vz * vz)%R ->
  (0 < len)%R /\
  (vx / len * (vx / len) + vy / len * (vy / len) + vz / len * (vz / len) = 1)%R.
Proof.
  intros len Hpos.
  assert (Hlen : (0 < len)%R) by (by apply sqrt_lt_R0).
  assert (Hsq : (len * len = vx * vx + vy * vy + vz * vz)%R)
    by (apply sqrt_sqrt; lra).
  split; [done|].
  replace (vx / len * (vx / len) + vy / len * (vy / len) + vz / len * (vz / len))%R
    with ((vx * vx + vy * vy + vz * vz) / (len * len))%R by (field; lra).
  rewrite Hsq. field. lra.
Qed.

Lemma scaled_unit (a b c s1 s2 s3 : R) :
  (a * a + b * b + c * c = 1)%R ->
  (2 <= s1 <= 7)%R -> (2 <= s2 <= 7)%R -> (2 <= s3 <= 7)%R ->
  (2 <= sqrt (a * s1 * (a * s1) + b * s2 * (b * s2) + c * s3 * (c * s3)) <= 7)%R.
Proof.
  intros Hunit H1 H2 H3.
  set (q := (a * s1 * (a * s1) + b * s2 * (b * s2) + c * s3 * (c * s3))%R).
  assert (Ha : (0 <= a * a)%R) by nra.
  assert (Hb : (0 <= b * b)%R) by nra.
  assert (Hc : (0 <= c * c)%R) by nra.
  assert (Hs1 : (4 <= s1 * s1 <= 49)%R) by nra.
  assert (Hs2 : (4 <= s2 * s2 <= 49)%R) by nra.
  assert (Hs3 : (4 <= s3 * s3 <= 49)%R) by nra.
  assert (Hq : (q = a * a * (s1 * s1) + b * b * (s2 * s2) + c * c * (s3 * s3))%R)
    by (unfold q; ring).
  assert (Hlo : (2 * 2 <= q)%R) by nra.
  assert (Hhi : (q <= 7 * 7)%R) by nra.
  assert (E2 : sqrt (2 * 2) = 2%R) by (apply sqrt_square; lra).
  assert (E7 : sqrt (7 * 7) = 7%R) by (apply sqrt_square; lra).
  split.
  - rewrite <- E2. apply sqrt_le_1; lra.
  - rewrite <- E7. apply sqrt_le_1; lra.
Qed.

(** The velocity of a particle whose raw direction is not the zero vector:
    the direction is normalised to length 1 and the velocity has a length
    between 2 and 7. *)
Lemma explosionVelocity_magnitude (k : nat) (u0 u1 u2 u3 u4 u5 : R) :
  Math_random k = Fin u0 ->
  Math_random (k + 1) = Fin u1 ->
  Math_random (k + 2) = Fin u2 ->
  Math_random (k + 3) = Fin u3 ->
  Math_random (k + 4) = Fin u4 ->
  Math_random (k + 5) = Fin u5 ->
  (0 <= u3 < 1)%R -> (0 <= u4 < 1)%R -> (0 <= u5 < 1)%R ->
  ~ (u0 = 0.5 /\ u1 = 0.5 /\ u2 = 0.5)%R ->
  exists len m : R,
    norm3 (rawDirection Math_random k) = Fin len /\
    (0 < len)%R /\
    magnitude (explosionVelocity Math_random k) = Fin m /\
    (2 <= m <= 7)%R.
Proof.
  intros H0 H1 H2 H3 H4 H5 Hu3 Hu4 Hu5 Hnz.
  unfold explosionVelocity, magnitude, norm3, rawDirection.
  rewrite H0, H1, H2, H3, H4, H5. simpl.
  set (vx := (u0 + - (0.5))%R). set (vy := (u1 + - (0.5))%R).
  set (vz := (u2 + - (0.5))%R).
  assert (Hpos : (0 < vx * vx + vy * vy + vz * vz)%R).
  { destruct (Req_dec_T vx 0) as [Hx|Hx]; [|nra].
    destruct (Req_dec_T vy 0) as [Hy|Hy]; [|nra].
    destruct (Req_dec_T vz 0) as [Hz|Hz]; [|nra].
    exfalso. apply Hnz. unfold vx, vy, vz in *. lra. }
  destruct (normalised_unit vx vy vz Hpos) as [Hlen Hunit].
  destruct (decide (vx * vx + vy * vy + vz * vz < 0)%R) as [Hneg|_]; [lra|].
  simpl.
  destruct (decide (sqrt (vx * vx + vy * vy + vz * vz) = 0)%R) as [Hz|_]; [lra|].
  simpl.
  match goal with |- context [decide (?q < 0)%R] =>
    destruct (decide (q < 0)%R) as [Hneg|_]; [nra|] end.
  do 2 eexists. repeat split; try reflexivity; try done.
  all: apply scaled_unit; (done || lra).
Qed.

(** The velocity of a particle whose three direction draws are all 0.5: the
    raw direction is the zero vector, its length 0, and each component of
    the velocity 0/0 scaled, that is NaN. *)
Lemma explosionVelocity_zero_direction (k : nat) :
  Math_random k = Fin 0.5 ->
  Math_random (k + 1) = Fin 0.5 ->
  Math_random (k + 2) = Fin 0.5 ->
  norm3 (rawDirection Math_random k) = Fin 0 /\
  explosionVelocity Math_random k = Vec.mk NaN NaN NaN /\
  magnitude (explosionVelocity Math_random k) = NaN.
Proof.
  intros H0 H1 H2.
  assert (Hnorm : norm3 (rawDirection Math_random k) = Fin 0).
  { unfold norm3, rawDirection. rewrite H0, H1, H2. simpl.
    replace (0.5 + - (0.5))%R with 0%R by lra.
    rewrite !Rmult_0_l, !Rplus_0_l.
    destruct (decide (0 < 0)%R) as [Hlt|_]; [lra|]. by rewrite sqrt_0. }
  assert (Hvel : explosionVelocity Math_random k = Vec.mk NaN NaN NaN).
  { unfold explosionVelocity.
    pose proof Hnorm as Hn. unfold rawDirection in Hn |- *.
    rewrite Hn, H0, H1, H2. simpl.
    replace (0.5 + - (0.5))%R with 0%R by lra.
    unfold signed.
    destruct (decide (0 = 0)%R) as [_|Hne]; [|done]. done. }
  by rewrite Hvel.
Qed.

(** At every state of a run from [init] the latch is set exactly when there
    is a galaxy. *)
Lemma step_galaxy_present (w : World) (e : event) :
  (created (galaxyParams w) = true <-> is_Some (galaxyParticles w)) ->
  created (galaxyParams (step Math_random setHSL w e)) = true <->
  is_Some (galaxyParticles (step Math_random setHSL w e)).
Proof.
  intros Hw. destruct e as [delta|v|v|v|v|v]; try exact Hw.
  unfold step, animate. simpl.
  destruct (for_loop_throwing _ _ _) as [ps|ps]; simpl; [|exact Hw].
  destruct (created (galaxyParams w)) eqn:Hc; simpl.
  - unfold rotateGalaxy. simpl.
    destruct (galaxyParticles w) eqn:Hg; simpl; rewrite ?Hc, ?Hg; [|done].
    split; eauto.
  - destruct (_ > Fin 10)%js; unfold rotateGalaxy; simpl.
    + split; eauto.
    + destruct (galaxyParticles w) eqn:Hg; simpl; rewrite ?Hc, ?Hg; [|done].
      split; [done|]. intros _. apply Hw. eauto.
Qed.

Lemma galaxy_present_iff_created (events : list event) :
  let w := run Math_random setHSL (init Math_random setHSL) events in
  created (galaxyParams w) = true <-> is_Some (galaxyParticles w).
Proof.
  cbv zeta.
  assert (H0 : created (galaxyParams (init Math_random setHSL)) = true <->
               is_Some (galaxyParticles (init Math_random setHSL))).
  { change (false = true <-> is_Some (@None GalaxyPoints)).
    split; [done | by intros [g Hg]]. }
  revert H0. generalize (init Math_random setHSL).
  induction events as [|e events IH]; intros w Hw; [exact Hw|].
  rewrite run_cons. apply IH. by apply step_galaxy_present.
Qed.

(** In any run, also one in which a tick throws, the latch lets at most one
    call of [createGalaxyParticles] through. *)
Lemma run_creations_bounded (w : World) (events : list event) :
  galaxyCreations (run Math_random setHSL w events) <=
    galaxyCreations w + (if created (galaxyParams w) then 0 else 1).
Proof.
  revert w. induction events as [|e events IH]; intros w; [simpl; lia|].
  rewrite run_cons. specialize (IH (step Math_random setHSL w e)).
  destruct (step_latch w e) as (Hc & Hn & _).
  rewrite Hc, Hn in IH.
  match type of Hn with context [if ?now then 1 else 0] =>
    assert (Hopen : created (galaxyParams w) = true -> now = false)
  end.
  { intros Hw. destruct e; try done. unfold fires. rewrite Hw.
    by rewrite andb_false_r. }
  destruct (created (galaxyParams w)).
  - rewrite Hopen in IH by done. simpl in IH. lia.
  - simpl in IH. match type of IH with context [if ?now then 1 else 0] =>
      destruct now; simpl in IH; lia end.
Qed.

Lemma init_creations_bounded (events : list event) :
  galaxyCreations (run Math_random setHSL (init Math_random setHSL) events) <= 1.
Proof. exact (run_creations_bounded (init Math_random setHSL) events). Qed.

End Properties.

(** ** The explosion population *)

(** C2, as the script has it.  The function given to [onFinishChange]
    leaves a population of exactly [value] particles: the count is [value],
    the velocity array has [value] entries and the position, colour and size
    buffers [3 * value], [3 * value] and [value] cells.  Velocities and
    buffers are those the creation loop builds from an empty array and new
    buffers, so nothing of the old arrays is in them, and the old object is
    taken out of the scene.  The explosion clock keeps its value. *)
Theorem regenerate_population (Math_random : nat -> number)
    (setHSL : number -> number -> number -> number * number * number)
    (value : nat) (w : World) :
  let w' := particleCount_onFinishChange Math_random setHSL value w in
  let b := newExplosion Math_random setHSL value (randomCalls w) in
  particleCount (explosionParams w') = value /\
  length (explosionVelocities w') = value /\
  length (position (explosionGeometry w')) = value * 3 /\
  length (color (explosionGeometry w')) = value * 3 /\
  length (size (explosionGeometry w')) = value /\
  explosionVelocities w' = eb_velocities b /\
  explosionGeometry w' =
    {| position := eb_positions b; color := eb_colors b; size := eb_sizes b |} /\
  explosionVelocities w' =
    map (fun i => explosionVelocity Math_random (randomCalls w + 9 * i + 3))
      (seq 0 value) /\
  scene w' = scene_remove (explosionParticles w) (scene w) ++ [nextObject w] /\
  explosionTime (explosionParams w') = explosionTime (explosionParams w).
Proof.
  intros w' b.
  pose proof (onFinishChange_consistent Math_random setHSL value w) as [Hv Hp].
  pose proof (createExplosionParticles_velocities Math_random setHSL) as Hvel.
  pose proof (createExplosionParticles_lengths Math_random setHSL) as Hlen.
  unfold particleCount_onFinishChange in *.
  match type of Hv with context [createExplosionParticles _ _ ?w0] =>
    specialize (Hvel w0); destruct (Hlen w0) as (_ & Hc & Hs) end.
  repeat split; try done.
Qed.

Lemma regenerate_resets_clock_counterexample :
  ~ (length (explosionVelocities
               (particleCount_onFinishChange halves grey 2 one_particle_at_5)) = 2 /\
     explosionTime
       (explosionParams
          (particleCount_onFinishChange halves grey 2 one_particle_at_5)) = Fin 0).
Proof.
  intros [_ Hclock]. change (Fin 5 = Fin 0) in Hclock.
  injection Hclock as Hclock. lra.
Qed.

(** ** The phase transition *)

(** C4, as the script has it.  From clock 0 with the galaxy not yet
    created, one tick with delta 5 and expansion speed 2 leaves the clock at
    exactly 10 and does not create the galaxy: the test is [> 10]. *)
Theorem tick_to_exactly_ten (Math_random : nat -> number)
    (setHSL : number -> number -> number -> number * number * number)
    (w : World) :
  explosionTime (explosionParams w) = Fin 0 ->
  expansionSpeed (explosionParams w) = Fin 2 ->
  created (galaxyParams w) = false ->
  let w' := state_of (animate Math_random setHSL (Fin 5) w) in
  explosionTime (explosionParams w') = Fin 10 /\
  created (galaxyParams w') = false /\
  galaxyCreations w' = galaxyCreations w.
Proof.
  intros Ht Hs Hc w'.
  assert (Hclock : explosionTime (explosionParams w') = Fin 10).
  { unfold w'. rewrite animate_clock, Ht, Hs. simpl. f_equal. lra. }
  destruct (animate_latch Math_random setHSL (Fin 5) w) as (Hc' & Hn & _).
  fold w' in Hc', Hn.
  assert (Hfires : fires Math_random setHSL (Fin 5) w = false).
  { unfold fires, exceeds_threshold, step. fold w'.
    rewrite Hclock, gt_irrefl. apply andb_false_r. }
  rewrite Hfires in Hc', Hn. rewrite Hc in Hc'.
  repeat split; [done | done | lia].
Qed.

Lemma tick_to_exactly_ten_witness :
  let w' := state_of (animate halves grey (Fin 5) one_particle) in
  (explosionTime (explosionParams one_particle) = Fin 0 /\
   expansionSpeed (explosionParams one_particle) = Fin 2 /\
   created (galaxyParams one_particle) = false) /\
  explosionTime (explosionParams w') = Fin 10 /\
  created (galaxyParams w') = false /\
  galaxyCreations w' = galaxyCreations one_particle.
Proof.
  split; [by repeat split|].
  apply (tick_to_exactly_ten halves grey one_particle); reflexivity.
Defined.

Lemma tick_to_ten_creates_galaxy_counterexample :
  ~ (explosionTime
       (explosionParams (state_of (animate halves grey (Fin 5) one_particle))) =
       Fin 10 /\
     created
       (galaxyParams (state_of (animate halves grey (Fin 5) one_particle))) =
       true).
Proof.
  intros [_ Hcreated].
  destruct (animate_latch halves grey (Fin 5) one_particle) as (Hc & _).
  rewrite Hc in Hcreated. unfold fires, exceeds_threshold, step in Hcreated.
  rewrite animate_clock in Hcreated. simpl in Hcreated.
  apply bool_decide_eq_true in Hcreated. lra.
Qed.

(** C5 as stated, at a tick of delta -1 under speed 2: the clock goes from
    0 to -2. *)
Lemma bad_delta_has_no_effect_counterexample :
  ~ (explosionTime
       (explosionParams (state_of (animate halves grey (Fin (-1)) one_particle))) =
       explosionTime (explosionParams one_particle) /\
     position
       (explosionGeometry (state_of (animate halves grey (Fin (-1)) one_particle))) =
       position (explosionGeometry one_particle)).
Proof.
  intros [Hclock _]. rewrite animate_clock in Hclock. simpl in Hclock.
  injection Hclock as Hclock. lra.
Qed.

(** ** Velocities of the explosion *)

Lemma init_first_velocity (Math_random : nat -> number)
    (setHSL : number -> number -> number -> number * number * number) :
  explosionVelocities (init Math_random setHSL) !! 0 =
    Some (explosionVelocity Math_random 3).
Proof.
  unfold init. rewrite createExplosionParticles_velocities.
  change (explosionVelocities declared) with (@nil Vec.t). rewrite app_nil_l.
  match goal with |- map ?f ?l !! _ = _ => change (map f l) with (f <$> l) end.
  rewrite list_lookup_fmap, lookup_seq_lt; [done|].
  apply Nat.ltb_lt. vm_compute. reflexivity.
Qed.

(** C6, at the draws that break it: when [Math.random] returns 0.5 at each
    call, the first particle made by [init] has a velocity whose length is
    NaN, which is not in the interval from 2 to 7. *)
Theorem velocity_magnitude_at_half_draws
    (setHSL : number -> number -> number -> number * number * number) :
  exists v,
    explosionVelocities (init halves setHSL) !! 0 = Some v /\
    magnitude v = NaN /\
    within (Fin 2) (Fin 7) (magnitude v) = false.
Proof.
  exists (explosionVelocity halves 3). split; [apply init_first_velocity|].
  destruct (explosionVelocity_zero_direction halves 3) as (_ & _ & Hm);
    try reflexivity.
  by rewrite Hm.
Qed.

(** C9, at the draws that break it: when [Math.random] returns 0.5 at each
    call, the raw direction of the first particle made by [init] has length
    0, the normalisation divides 0 by 0, and the velocity pushed has the
    three components NaN. *)
Theorem direction_norm_at_half_draws
    (setHSL : number -> number -> number -> number * number * number) :
  rawDirection halves 3 = ((Fin 0.5 - Fin 0.5)%js, (Fin 0.5 - Fin 0.5)%js,
                           (Fin 0.5 - Fin 0.5)%js) /\
  norm3 (rawDirection halves 3) = Fin 0 /\
  (Fin 0 / Fin 0)%js = NaN /\
  explosionVelocities (init halves setHSL) !! 0 = Some (Vec.mk NaN NaN NaN).
Proof.
  destruct (explosionVelocity_zero_direction halves 3) as (Hn & Hv & _);
    try reflexivity.
  split; [reflexivity|]. split; [exact Hn|]. split.
  - simpl. unfold signed. by destruct (decide (0 = 0)%R).
  - by rewrite init_first_velocity, Hv.
Qed.

(** ** The galaxy population *)

(** C7, in exact arithmetic.  With a random source in [0, 1) and a spread
    [s >= 0], every particle made by [createGalaxyParticles] is at a
    distance from the origin between 50 and [50 + s], when the position is
    computed without rounding.  As the script computes and stores it the
    distance can leave the interval ([galaxy_shell_counterexample]). *)
Theorem galaxy_shell (Math_random : nat -> number)
    (setHSL : number -> number -> number -> number * number * number)
    (w : World) (s : R) :
  (forall k, exists u : R, Math_random k = Fin u /\ (0 <= u < 1)%R) ->
  galaxySpread (galaxyParams w) = Fin s ->
  (0 <= s)%R ->
  exists g,
    galaxyParticles (createGalaxyParticles Math_random setHSL w) = Some g /\
    length (position (galaxyGeometry g)) = galaxyParticleCount (galaxyParams w) * 3 /\
    forall i, i < galaxyParticleCount (galaxyParams w) ->
      exists x y z : R,
        cells (position (galaxyGeometry g)) i = Some (Fin x, Fin y, Fin z) /\
        (50 <= sqrt (x * x + y * y + z * z) <= 50 + s)%R.
Proof.
  intros Hrand Hspread Hs.
  destruct (createGalaxyParticles_geometry Math_random setHSL w)
    as (g & Hg & Hlen & _ & _ & Hcells).
  exists g. split; [done|]. split; [done|]. intros i Hi.
  rewrite (Hcells i Hi), Hspread.
  destruct (Hrand (randomCalls w + 3 * i)) as (u1 & H1 & Hu1).
  destruct (Hrand (randomCalls w + 3 * i + 1)) as (u2 & H2 & Hu2).
  destruct (Hrand (randomCalls w + 3 * i + 2)) as (u3 & H3 & Hu3).
  destruct (galaxySeed_distance Math_random s _ u1 u2 u3 H1 H2 H3 Hu1 Hu3 Hs)
    as (x & y & z & -> & Hd).
  by exists x, y, z.
Qed.

Lemma galaxy_shell_witness :
  ((forall k, exists u : R, quarters k = Fin u /\ (0 <= u < 1)%R) /\
   galaxySpread (galaxyParams one_particle) = Fin 500 /\
   (0 <= 500)%R) /\
  exists g,
    galaxyParticles (createGalaxyParticles quarters grey one_particle) = Some g /\
    length (position (galaxyGeometry g)) =
      galaxyParticleCount (galaxyParams one_particle) * 3 /\
    forall i, i < galaxyParticleCount (galaxyParams one_particle) ->
      exists x y z : R,
        cells (position (galaxyGeometry g)) i = Some (Fin x, Fin y, Fin z) /\
        (50 <= sqrt (x * x + y * y + z * z) <= 50 + 500)%R.
Proof.
  assert (Hq : forall k, exists u : R, quarters k = Fin u /\ (0 <= u < 1)%R).
  { intros k. exists 0.25%R. split; [reflexivity | lra]. }
  assert (Hs : (0 <= 500)%R) by lra.
  split; [repeat split; [exact Hq | exact Hs]|].
  exact (galaxy_shell quarters grey one_particle 500 Hq eq_refl Hs).
Defined.

(** ** The particle count and the position loop *)

Lemma set_particleCount_arrays (n : nat) (w : World) :
  explosionVelocities (set_particleCount n w) = explosionVelocities w /\
  explosionGeometry (set_particleCount n w) = explosionGeometry w /\
  particleCount (explosionParams (set_particleCount n w)) = n.
Proof. done. Qed.

Lemma init_sizes (Math_random : nat -> number)
    (setHSL : number -> number -> number -> number * number * number) :
  length (explosionVelocities (init Math_random setHSL)) = 10000 /\
  length (position (explosionGeometry (init Math_random setHSL))) = 10000 * 3.
Proof.
  unfold init. split.
  - rewrite createExplosionParticles_velocities.
    change (explosionVelocities declared) with (@nil Vec.t).
    by rewrite app_nil_l, length_map, length_seq.
  - exact (proj1 (createExplosionParticles_lengths Math_random setHSL declared)).
Qed.

(** C10, at the state that breaks it: after [init], a write of 11000 to
    [explosionParams.particleCount] by its controller, before the change is
    finished, leaves 10000 velocities under a count of 11000, and the next
    tick throws in the position loop, at the read of
    [explosionVelocities[10000].x]. *)
Theorem raw_count_write_breaks_position_loop (Math_random : nat -> number)
    (setHSL : number -> number -> number -> number * number * number)
    (delta : number) :
  let w := step Math_random setHSL (init Math_random setHSL)
             (WriteParticleCount 11000) in
  length (explosionVelocities w) = 10000 /\
  length (position (explosionGeometry w)) = 10000 * 3 /\
  particleCount (explosionParams w) = 11000 /\
  explosionVelocities w !! 10000 = None /\
  returns (animate Math_random setHSL delta w) = false.
Proof.
  intros w.
  destruct (init_sizes Math_random setHSL) as [Hv Hp].
  pose proof (fun n => set_particleCount_arrays n (init Math_random setHSL))
    as Hset.
  assert (Hlen : length (explosionVelocities w) = 10000).
  { unfold w, step. by rewrite (proj1 (Hset _)). }
  split; [exact Hlen|]. split.
  { unfold w, step. by rewrite (proj1 (proj2 (Hset _))). }
  split; [reflexivity|]. split.
  - apply lookup_ge_None_2. rewrite Hlen. done.
  - apply animate_inconsistent. rewrite Hlen.
    unfold w, step. rewrite (proj2 (proj2 (Hset _))).
    apply Nat.ltb_lt. vm_compute. reflexivity.
Qed.

(** ** Further properties: the buffers of a new particle system *)

Section Buffers.

Variable Math_random : nat -> number.
Variable setHSL : number -> number -> number -> number * number * number.

Lemma explosionBody_cells (i : nat) (b : ExplosionBuild) :
  let b' := explosionBody Math_random setHSL i b in
  (i * 3 + 2 < length (eb_positions b) ->
   cells (eb_positions b') i = Some (explosionSeed Math_random (eb_random b))) /\
  (i * 3 + 2 < length (eb_colors b) ->
   cells (eb_colors b') i = Some (setHSL (Fin 0.1) (Fin 1.0) (Fin 0.8))) /\
  (i < length (eb_sizes b) -> eb_sizes b' !! i = Some (Fin 2.0)) /\
  (forall j, i <> j ->
     cells (eb_positions b') j = cells (eb_positions b) j /\
     cells (eb_colors b') j = cells (eb_colors b) j /\
     eb_sizes b' !! j = eb_sizes b !! j).
Proof.
  unfold explosionBody.
  destruct (explosionSeed _ _) as [[x y] z].
  destruct (setHSL _ _ _) as [[cr cg] cb]. simpl.
  repeat split.
  - intros Hlen. by apply cells_store3.
  - intros Hlen. by apply cells_store3.
  - intros Hlen. by apply list_lookup_insert_eq.
  - by apply cells_store3_other.
  - by apply cells_store3_other.
  - by apply list_lookup_insert_ne.
Qed.

Lemma explosion_loop_cells (n : nat) (b0 : ExplosionBuild) :
  n * 3 <= length (eb_positions b0) ->
  n * 3 <= length (eb_colors b0) ->
  n <= length (eb_sizes b0) ->
  let b := for_loop n (explosionBody Math_random setHSL) b0 in
  forall i, i < n ->
    cells (eb_positions b) i =
      Some (explosionSeed Math_random (eb_random b0 + 9 * i)) /\
    cells (eb_colors b) i = Some (setHSL (Fin 0.1) (Fin 1.0) (Fin 0.8)) /\
    eb_sizes b !! i = Some (Fin 2.0).
Proof.
  induction n as [|n IH]; cbv zeta; intros Hp Hc Hs i Hi; [lia|].
  rewrite for_loop_S.
  set (b := for_loop n (explosionBody Math_random setHSL) b0) in *.
  destruct (explosion_loop Math_random setHSL n b0) as (Hr & _ & Hlp & Hlc & Hls).
  fold b in Hr, Hlp, Hlc, Hls.
  destruct (explosionBody_cells n b) as (Hnp & Hnc & Hns & Hold).
  destruct (decide (i = n)) as [->|Hne].
  - rewrite Hnp, Hnc, Hns by lia. rewrite Hr. done.
  - destruct (Hold i) as (-> & -> & ->); [done|]. apply IH; lia.
Qed.



Lemma explosionSeed_distance (k : nat) (u1 u2 u3 : R) :
  Math_random k = Fin u1 ->
  Math_random (k + 1) = Fin u2 ->
  Math_random (k + 2) = Fin u3 ->
  (0 <= u1 < 1)%R ->
  (0 <= u3 < 1)%R ->
  exists x y z : R,
    explosionSeed Math_random k = (Fin x, Fin y, Fin z) /\
    (sqrt (x * x + y * y + z * z) < 0.1)%R.
Proof.
  intros H1 H2 H3 Hu1 Hu3. unfold explosionSeed. rewrite H1, H2, H3. simpl.
  destruct (decide (-1 <= u3 * 2 + - (1))%R) as [_|Hlo]; [|lra].
  destruct (decide (u3 * 2 + - (1) <= 1)%R) as [_|Hhi]; [|lra].
  do 3 eexists. split; [reflexivity|].
  rewrite shell_distance;
    [nra | nra | apply sin_cos_1 | rewrite Rplus_comm; apply sin_cos_1].
Qed.

End Buffers.

(** ** Further properties: what a tick writes *)

Lemma length_positions_at (t : number) (velocities : list Vec.t) :
  length (positions_at t velocities) = length velocities * 3.
Proof.
  unfold positions_at. induction velocities as [|v l IH]; [done|].
  simpl. rewrite IH. lia.
Qed.

Lemma positions_at_snoc (t : number) (velocities : list Vec.t) (v : Vec.t) :
  positions_at t (velocities ++ [v]) = positions_at t velocities ++ scaled t v.
Proof.
  unfold positions_at. rewrite map_app, concat_app. reflexivity.
Qed.

Lemma cells_positions_at (t : number) (velocities : list Vec.t) (rest : list number)
    (i : nat) (v : Vec.t) :
  velocities !! i = Some v ->
  cells (positions_at t velocities ++ rest) i =
    Some ((Vec.x v * t)%js, (Vec.y v * t)%js, (Vec.z v * t)%js).
Proof.
  revert i. induction velocities as [|v0 l IH]; intros i Hi; [done|].
  destruct i as [|i].
  - injection Hi as ->. reflexivity.
  - specialize (IH i Hi). unfold cells in *.
    replace (S i * 3) with (3 + i * 3) by lia.
    replace (3 + i * 3 + 1) with (3 + (i * 3 + 1)) by lia.
    replace (3 + i * 3 + 2) with (3 + (i * 3 + 2)) by lia.
    exact IH.
Qed.

Lemma store3_at_end (front rest : list number) (n : nat) (x y z a b c : number) :
  length front = n * 3 ->
  store3 n x y z (front ++ a :: b :: c :: rest) = front ++ x :: y :: z :: rest.
Proof.
  intros Hlen. unfold store3.
  rewrite (insert_app_r_alt front _ (n * 3)) by lia.
  rewrite (insert_app_r_alt front _ (n * 3 + 1)) by lia.
  rewrite (insert_app_r_alt front _ (n * 3 + 2)) by lia.
  rewrite Hlen.
  replace (n * 3 - n * 3) with 0 by lia.
  replace (n * 3 + 1 - n * 3) with 1 by lia.
  replace (n * 3 + 2 - n * 3) with 2 by lia.
  reflexivity.
Qed.

Lemma drop_three (ps : list number) (k : nat) :
  k + 3 <= length ps ->
  exists a b c, drop k ps = a :: b :: c :: drop (k + 3) ps.
Proof.
  intros Hlen.
  destruct (lookup_lt_is_Some_2 ps k) as [a Ha]; [lia|].
  destruct (lookup_lt_is_Some_2 ps (S k)) as [b Hb]; [lia|].
  destruct (lookup_lt_is_Some_2 ps (S (S k))) as [c Hc]; [lia|].
  exists a, b, c.
  rewrite (drop_S _ _ _ Ha), (drop_S _ _ _ Hb), (drop_S _ _ _ Hc).
  do 4 f_equal. lia.
Qed.

(** The position loop run for [n] particles: the first [3n] cells are
    rewritten from the velocities, the others are left. *)
Lemma animate_loop_positions (velocities : list Vec.t) (t : number) (n : nat)
    (ps : list number) :
  n <= length velocities ->
  n * 3 <= length ps ->
  for_loop_throwing n (animateBody velocities t) ps =
    Normal (positions_at t (take n velocities) ++ drop (n * 3) ps).
Proof.
  induction n as [|n IH]; intros Hv Hp.
  - by rewrite for_loop_throwing_0, take_0, drop_0.
  - rewrite for_loop_throwing_S, IH by lia. unfold animateBody.
    destruct (lookup_lt_is_Some_2 velocities n) as [v Hvn]; [lia|].
    rewrite Hvn, (take_S_r _ _ _ Hvn), positions_at_snoc.
    destruct (drop_three ps (n * 3)) as (a & b & c & ->); [lia|].
    rewrite store3_at_end
      by (rewrite length_positions_at, length_take; lia).
    rewrite <- app_assoc. do 2 f_equal.
    replace (S n * 3) with (n * 3 + 3) by lia. reflexivity.
Qed.

(** The position loop under a count above the number of velocities: it
    throws once every velocity has been used. *)
Lemma animate_loop_throws_after (velocities : list Vec.t) (t : number) (n : nat)
    (ps : list number) :
  length velocities < n ->
  length velocities * 3 <= length ps ->
  for_loop_throwing n (animateBody velocities t) ps =
    TypeError (positions_at t velocities ++ drop (length velocities * 3) ps).
Proof.
  intros Hlt Hp. induction n as [|n IH]; [lia|].
  rewrite for_loop_throwing_S.
  destruct (decide (length velocities < n)) as [Hn|Hn].
  - by rewrite IH.
  - assert (n = length velocities) as -> by lia.
    rewrite animate_loop_positions by lia.
    unfold animateBody. rewrite lookup_ge_None_2 by lia.
    by rewrite firstn_all.
Qed.

Section Ticks.

Variable Math_random : nat -> number.
Variable setHSL : number -> number -> number -> number * number * number.

Lemma animate_returns (delta : number) (w : World) :
  particleCount (explosionParams w) <= length (explosionVelocities w) ->
  particleCount (explosionParams w) * 3 <= length (position (explosionGeometry w)) ->
  let n := particleCount (explosionParams w) in
  let t := (explosionTime (explosionParams w)
            + delta * expansionSpeed (explosionParams w))%js in
  let w2 :=
    set_explosionPositions
      (positions_at t (take n (explosionVelocities w))
         ++ drop (n * 3) (position (explosionGeometry w)))
      (set_explosionTime t w) in
  animate Math_random setHSL delta w =
    Normal (rotateGalaxy
              (if negb (created (galaxyParams w)) && (t > Fin 10)%js
               then set_created true (createGalaxyParticles Math_random setHSL w2)
               else w2)).
Proof.
  intros Hv Hp n t w2. unfold animate. simpl.
  fold t. rewrite animate_loop_positions by done. reflexivity.
Qed.

Lemma animate_throws (delta : number) (w : World) :
  length (explosionVelocities w) < particleCount (explosionParams w) ->
  length (explosionVelocities w) * 3 <= length (position (explosionGeometry w)) ->
  let t := (explosionTime (explosionParams w)
            + delta * expansionSpeed (explosionParams w))%js in
  animate Math_random setHSL delta w =
    TypeError
      (set_explosionPositions
         (positions_at t (explosionVelocities w)
            ++ drop (length (explosionVelocities w) * 3)
                 (position (explosionGeometry w)))
         (set_explosionTime t w)).
Proof.
  intros Hv Hp t. unfold animate. simpl.
  fold t. rewrite animate_loop_throws_after by done. reflexivity.
Qed.

Lemma rotateGalaxy_explosion (w : World) :
  explosionParams (rotateGalaxy w) = explosionParams w /\
  explosionVelocities (rotateGalaxy w) = explosionVelocities w /\
  explosionGeometry (rotateGalaxy w) = explosionGeometry w /\
  explosionParticles (rotateGalaxy w) = explosionParticles w /\
  galaxyParams (rotateGalaxy w) = galaxyParams w /\
  scene (rotateGalaxy w) = scene w /\
  nextObject (rotateGalaxy w) = nextObject w /\
  randomCalls (rotateGalaxy w) = randomCalls w /\
  galaxyCreations (rotateGalaxy w) = galaxyCreations w.
Proof. unfold rotateGalaxy. by destruct (galaxyParticles w). Qed.

(** The explosion after a tick that returns. *)
Lemma animate_explosion (delta : number) (w : World) :
  particleCount (explosionParams w) <= length (explosionVelocities w) ->
  particleCount (explosionParams w) * 3 <= length (position (explosionGeometry w)) ->
  let n := particleCount (explosionParams w) in
  let t := (explosionTime (explosionParams w)
            + delta * expansionSpeed (explosionParams w))%js in
  exists w',
    animate Math_random setHSL delta w = Normal w' /\
    explosionParams w' =
      {| particleCount := n;
         expansionSpeed := expansionSpeed (explosionParams w);
         explosionTime := t |} /\
    explosionVelocities w' = explosionVelocities w /\
    explosionGeometry w' =
      {| position :=
           positions_at t (take n (explosionVelocities w))
             ++ drop (n * 3) (position (explosionGeometry w));
         color := color (explosionGeometry w);
         size := size (explosionGeometry w) |} /\
    explosionParticles w' = explosionParticles w.
Proof.
  intros Hv Hp n t. rewrite animate_returns by done.
  eexists; split; [reflexivity|].
  match goal with |- context [rotateGalaxy ?X] =>
    destruct (rotateGalaxy_explosion X) as (-> & -> & -> & -> & _) end.
  by destruct (negb (created (galaxyParams w)) && _).
Qed.

End Ticks.

(** X1. A tick in a state whose arrays have the length of the particle
    count rewrites the whole position buffer: afterwards the buffer is the
    list of the triples written for the velocities, one per velocity in
    order, and nothing of its former content, the seed positions of
    [createExplosionParticles] included, is left in it.  In exact
    arithmetic the triple of a velocity is [velocity * clock]; the script
    stores the binary32 rounding of each product ([float32_linear_law]). *)
Theorem tick_rewrites_position_buffer (Math_random : nat -> number)
    (setHSL : number -> number -> number -> number * number * number)
    (delta : number) (w : World) :
  consistent w ->
  exists w',
    animate Math_random setHSL delta w = Normal w' /\
    position (explosionGeometry w') =
      positions_at (explosionTime (explosionParams w')) (explosionVelocities w).
Proof.
  intros [Hv Hp].
  destruct (animate_explosion Math_random setHSL delta w)
    as (w' & Hret & Hpar & _ & Hgeo & _); [lia | lia |].
  exists w'. split; [done|]. rewrite Hgeo, Hpar. simpl.
  by rewrite <- Hv, firstn_all, drop_ge, app_nil_r by lia.
Qed.

Lemma tick_rewrites_position_buffer_witness :
  consistent one_particle /\
  exists w',
    animate halves grey (Fin 5) one_particle = Normal w' /\
    position (explosionGeometry w') =
      positions_at (explosionTime (explosionParams w'))
        (explosionVelocities one_particle).
Proof.
  assert (Hw : consistent one_particle) by (split; reflexivity).
  split; [exact Hw|].
  exact (tick_rewrites_position_buffer halves grey (Fin 5) one_particle Hw).
Defined.

(** X2. A tick under a particle count lowered by its controller, the change
    not finished: the tick returns, rewrites the cells of the first
    [particleCount] particles and leaves the cells of the others as they
    were, so these particles stay where the previous tick put them. *)
Theorem tick_under_lowered_count (Math_random : nat -> number)
    (setHSL : number -> number -> number -> number * number * number)
    (delta : number) (w : World) :
  particleCount (explosionParams w) <= length (explosionVelocities w) ->
  particleCount (explosionParams w) * 3 <= length (position (explosionGeometry w)) ->
  exists w',
    animate Math_random setHSL delta w = Normal w' /\
    position (explosionGeometry w') =
      positions_at (explosionTime (explosionParams w'))
        (take (particleCount (explosionParams w)) (explosionVelocities w))
      ++ drop (particleCount (explosionParams w) * 3)
           (position (explosionGeometry w)) /\
    forall j, particleCount (explosionParams w) <= j ->
      cells (position (explosionGeometry w')) j =
        cells (position (explosionGeometry w)) j.
Proof.
  intros Hv Hp.
  destruct (animate_explosion Math_random setHSL delta w Hv Hp)
    as (w' & Hret & Hpar & _ & Hgeo & _).
  exists w'. split; [done|]. rewrite Hgeo, Hpar. simpl. split; [done|].
  intros j Hj. unfold cells.
  set (n := particleCount (explosionParams w)) in *.
  assert (Hlen : length (positions_at
                   (explosionTime (explosionParams w)
                    + delta * expansionSpeed (explosionParams w))%js
                   (take n (explosionVelocities w))) = n * 3).
  { rewrite length_positions_at, length_take. lia. }
  rewrite !lookup_app_r by lia. rewrite Hlen, !lookup_drop.
  replace (n * 3 + (j * 3 - n * 3)) with (j * 3) by lia.
  replace (n * 3 + (j * 3 + 1 - n * 3)) with (j * 3 + 1) by lia.
  replace (n * 3 + (j * 3 + 2 - n * 3)) with (j * 3 + 2) by lia.
  reflexivity.
Qed.

Lemma tick_under_lowered_count_witness :
  (particleCount (explosionParams lowered_count)
     <= length (explosionVelocities lowered_count) /\
   particleCount (explosionParams lowered_count) * 3
     <= length (position (explosionGeometry lowered_count))) /\
  exists w',
    animate halves grey (Fin 1) lowered_count = Normal w' /\
    position (explosionGeometry w') =
      positions_at (explosionTime (explosionParams w'))
        (take (particleCount (explosionParams lowered_count))
           (explosionVelocities lowered_count))
      ++ drop (particleCount (explosionParams lowered_count) * 3)
           (position (explosionGeometry lowered_count)) /\
    forall j, particleCount (explosionParams lowered_count) <= j ->
      cells (position (explosionGeometry w')) j =
        cells (position (explosionGeometry lowered_count)) j.
Proof.
  assert (Hv : particleCount (explosionParams lowered_count)
                 <= length (explosionVelocities lowered_count)) by (simpl; lia).
  assert (Hp : particleCount (explosionParams lowered_count) * 3
                 <= length (position (explosionGeometry lowered_count)))
    by (simpl; lia).
  split; [split; [exact Hv | exact Hp]|].
  exact (tick_under_lowered_count halves grey (Fin 1) lowered_count Hv Hp).
Defined.

(** X3. A tick under a particle count raised by its controller, the change
    not finished: the tick throws after it has advanced the clock and
    rewritten the cells of every particle there is, and before the test of
    the threshold, so that it neither creates the galaxy nor turns it,
    whatever the clock. *)
Theorem throwing_tick (Math_random : nat -> number)
    (setHSL : number -> number -> number -> number * number * number)
    (delta : number) (w : World) :
  length (explosionVelocities w) < particleCount (explosionParams w) ->
  length (explosionVelocities w) * 3 <= length (position (explosionGeometry w)) ->
  exists w',
    animate Math_random setHSL delta w = TypeError w' /\
    explosionTime (explosionParams w') =
      (explosionTime (explosionParams w)
       + delta * expansionSpeed (explosionParams w))%js /\
    position (explosionGeometry w') =
      positions_at (explosionTime (explosionParams w')) (explosionVelocities w)
      ++ drop (length (explosionVelocities w) * 3)
           (position (explosionGeometry w)) /\
    galaxyParams w' = galaxyParams w /\
    galaxyParticles w' = galaxyParticles w /\
    galaxyCreations w' = galaxyCreations w /\
    randomCalls w' = randomCalls w.
Proof.
  intros Hv Hp. rewrite animate_throws by done.
  eexists; split; [reflexivity|]. by repeat split.
Qed.

Lemma throwing_tick_witness :
  (length (explosionVelocities raised_count)
     < particleCount (explosionParams raised_count) /\
   length (explosionVelocities raised_count) * 3
     <= length (position (explosionGeometry raised_count))) /\
  exists w',
    animate halves grey (Fin 6) raised_count = TypeError w' /\
    explosionTime (explosionParams w') =
      (explosionTime (explosionParams raised_count)
       + Fin 6 * expansionSpeed (explosionParams raised_count))%js /\
    position (explosionGeometry w') =
      positions_at (explosionTime (explosionParams w'))
        (explosionVelocities raised_count)
      ++ drop (length (explosionVelocities raised_count) * 3)
           (position (explosionGeometry raised_count)) /\
    galaxyParams w' = galaxyParams raised_count /\
    galaxyParticles w' = galaxyParticles raised_count /\
    galaxyCreations w' = galaxyCreations raised_count /\
    randomCalls w' = randomCalls raised_count.
Proof.
  assert (Hv : length (explosionVelocities raised_count)
                 < particleCount (explosionParams raised_count)) by (simpl; lia).
  assert (Hp : length (explosionVelocities raised_count) * 3
                 <= length (position (explosionGeometry raised_count)))
    by (simpl; lia).
  split; [split; [exact Hv | exact Hp]|].
  exact (throwing_tick halves grey (Fin 6) raised_count Hv Hp).
Defined.

Lemma animate_loop_length (velocities : list Vec.t) (t : number) (n : nat)
    (ps : list number) :
  length (state_of (for_loop_throwing n (animateBody velocities t) ps)) =
    length ps.
Proof.
  induction n as [|n IH]; [done|].
  rewrite for_loop_throwing_S.
  destruct (for_loop_throwing n (animateBody velocities t) ps) as [ps'|ps'];
    simpl in *; [|done].
  unfold animateBody. destruct (velocities !! n); simpl; [|done].
  by rewrite length_store3.
Qed.

Lemma animate_keeps (Math_random : nat -> number)
    (setHSL : number -> number -> number -> number * number * number)
    (delta : number) (w : World) :
  let w' := state_of (animate Math_random setHSL delta w) in
  explosionVelocities w' = explosionVelocities w /\
  color (explosionGeometry w') = color (explosionGeometry w) /\
  size (explosionGeometry w') = size (explosionGeometry w) /\
  length (position (explosionGeometry w')) =
    length (position (explosionGeometry w)) /\
  explosionParticles w' = explosionParticles w /\
  particleCount (explosionParams w') = particleCount (explosionParams w) /\
  expansionSpeed (explosionParams w') = expansionSpeed (explosionParams w) /\
  galaxyParticleCount (galaxyParams w') = galaxyParticleCount (galaxyParams w) /\
  galaxySpread (galaxyParams w') = galaxySpread (galaxyParams w).
Proof.
  unfold animate. simpl.
  pose proof (animate_loop_length (explosionVelocities w)
                (explosionTime (explosionParams w)
                 + delta * expansionSpeed (explosionParams w))%js
                (particleCount (explosionParams w))
                (position (explosionGeometry w))) as Hlen.
  destruct (for_loop_throwing _ _ _) as [ps|ps]; simpl in *; [|by repeat split].
  match goal with |- context [rotateGalaxy ?X] =>
    destruct (rotateGalaxy_explosion X) as (-> & -> & -> & -> & -> & _) end.
  by destruct (negb (created (galaxyParams w)) && _).
Qed.


(** X4. Whatever the state and the delta, and whether it returns or throws,
    a tick leaves the velocities, the colour and size buffers of the
    explosion, the length of its position buffer, the explosion object and
    every tunable parameter as they were: of the explosion it writes the
    clock and the cells of the position buffer, nothing else. *)
Theorem tick_frame (Math_random : nat -> number)
    (setHSL : number -> number -> number -> number * number * number)
    (delta : number) (w : World) :
  let w' := state_of (animate Math_random setHSL delta w) in
  explosionVelocities w' = explosionVelocities w /\
  color (explosionGeometry w') = color (explosionGeometry w) /\
  size (explosionGeometry w') = size (explosionGeometry w) /\
  length (position (explosionGeometry w')) =
    length (position (explosionGeometry w)) /\
  explosionParticles w' = explosionParticles w /\
  particleCount (explosionParams w') = particleCount (explosionParams w) /\
  expansionSpeed (explosionParams w') = expansionSpeed (explosionParams w) /\
  galaxyParticleCount (galaxyParams w') = galaxyParticleCount (galaxyParams w) /\
  galaxySpread (galaxyParams w') = galaxySpread (galaxyParams w).
Proof. exact (animate_keeps Math_random setHSL delta w). Qed.

(** X5. The calls of [Math.random] made by an event: nine for each particle
    of a finished change of the particle count, three for each galaxy
    particle in the tick that creates the galaxy, none in any other tick or
    at any write of a parameter. *)
Theorem random_calls_of_step (Math_random : nat -> number)
    (setHSL : number -> number -> number -> number * number * number)
    (w : World) (e : event) :
  randomCalls (step Math_random setHSL w e) =
    randomCalls w
    + match e with
      | Frame delta =>
          if fires Math_random setHSL delta w
          then 3 * galaxyParticleCount (galaxyParams w) else 0
      | FinishParticleCount value => 9 * value
      | _ => 0
      end.
Proof.
  destruct e as [delta|v|v|v|v|v]; simpl; try lia.
  - unfold fires, exceeds_threshold, step. rewrite animate_clock.
    unfold animate. simpl.
    destruct (for_loop_throwing _ _ _) as [ps|ps]; simpl; [|lia].
    match goal with |- context [rotateGalaxy ?X] =>
      destruct (rotateGalaxy_explosion X) as (_ & _ & _ & _ & _ & _ & _ & -> & _)
    end.
    destruct (negb (created (galaxyParams w)) && _); simpl; [|lia].
    match goal with |- context [for_loop ?n (galaxyBody _ _ ?s) ?b] =>
      destruct (galaxy_loop Math_random setHSL s n b) as (-> & _) end.
    + simpl. by rewrite length_Float32Array.
    + reflexivity.
  - unfold particleCount_onFinishChange, createExplosionParticles. simpl.
    match goal with |- context [for_loop ?n ?f ?b] =>
      destruct (explosion_loop Math_random setHSL n b) as (-> & _) end.
    reflexivity.
Qed.

(** ** Further properties: the scene *)

Lemma filter_absent (e : nat) (l : list nat) :
  e ∉ l -> filter (fun c => c <> e) l = l.
Proof.
  induction l as [|x l IH]; intros He; [done|].
  apply not_elem_of_cons in He as [Hx Hl].
  rewrite filter_cons_True by congruence. by rewrite IH.
Qed.

Lemma filter_remove_length (e : nat) (l : list nat) :
  NoDup l -> e ∈ l -> S (length (filter (fun c => c <> e) l)) = length l.
Proof.
  induction l as [|x l IH]; intros Hnd He; [by apply elem_of_nil in He|].
  apply NoDup_cons in Hnd as [Hx Hnd].
  destruct (decide (x = e)) as [->|Hne].
  - rewrite filter_cons_False by (intros H; by apply H).
    by rewrite filter_absent.
  - rewrite filter_cons_True by done. simpl. f_equal. apply IH; [done|].
    apply elem_of_cons in He as [->|He]; done.
Qed.

Section Scene.

Variable Math_random : nat -> number.
Variable setHSL : number -> number -> number -> number * number * number.

Lemma animate_scene (delta : number) (w : World) :
  let w' := state_of (animate Math_random setHSL delta w) in
  explosionParticles w' = explosionParticles w /\
  if fires Math_random setHSL delta w
  then scene w' = scene w ++ [nextObject w] /\
       nextObject w' = S (nextObject w) /\
       exists g, galaxyParticles w' = Some g /\ galaxyObject g = nextObject w
  else scene w' = scene w /\
       nextObject w' = nextObject w /\
       galaxyObject <$> galaxyParticles w' = galaxyObject <$> galaxyParticles w.
Proof.
  unfold fires, exceeds_threshold, step. rewrite animate_clock.
  unfold animate. simpl.
  destruct (for_loop_throwing _ _ _) as [ps|ps]; simpl; [|done].
  destruct (created (galaxyParams w)); simpl.
  - unfold rotateGalaxy. simpl.
    by destruct (galaxyParticles w) eqn:Hg; simpl; rewrite ?Hg.
  - destruct (_ > Fin 10)%js; unfold rotateGalaxy; simpl.
    + repeat split. by eexists.
    + by destruct (galaxyParticles w) eqn:Hg; simpl; rewrite ?Hg.
Qed.

Lemma step_scene_ok (w : World) (e : event) :
  scene_ok w ->
  (created (galaxyParams w) = true <-> is_Some (galaxyParticles w)) ->
  scene_ok (step Math_random setHSL w e).
Proof.
  intros (Hnd & Hlt & (x & Hx & Hxin & Hg) & Hlen) Hiff.
  assert (Hok : scene_ok w) by (unfold scene_ok; eauto 10).
  destruct e as [delta|v|v|v|v|v]; try exact Hok.
  - unfold step. destruct (animate_scene delta w) as [He Hcase].
    destruct (fires Math_random setHSL delta w) eqn:Hf.
    + destruct Hcase as (Hs & Hn & g & Hg' & Hid).
      assert (Hnone : galaxyParticles w = None).
      { unfold fires in Hf. apply andb_prop in Hf as [Hf _].
        apply andb_prop in Hf as [_ Hf].
        destruct (galaxyParticles w) eqn:Hgp; [|done].
        destruct (created (galaxyParams w)); [done|].
        destruct Hiff as [_ Hiff]. by discriminate Hiff. }
      rewrite Hnone in Hlen.
      unfold scene_ok. rewrite Hs, Hn, He, Hg'.
      split; [|split; [|split]].
      * apply NoDup_app. split; [done|]. split; [|apply NoDup_singleton].
        intros o Ho Ho'. apply list_elem_of_singleton in Ho'.
        specialize (Hlt o Ho). lia.
      * intros o Ho. apply elem_of_app in Ho as [Ho|Ho].
        -- specialize (Hlt o Ho). lia.
        -- apply list_elem_of_singleton in Ho. lia.
      * exists x. split; [done|]. split; [apply elem_of_app; by left|].
        intros g0 Hg0. injection Hg0 as <-. rewrite Hid. split.
        -- apply elem_of_app. right. by apply list_elem_of_singleton.
        -- specialize (Hlt x Hxin). lia.
      * rewrite length_app. simpl. lia.
    + destruct Hcase as (Hs & Hn & Hgo).
      unfold scene_ok. rewrite Hs, Hn, He.
      split; [done|]. split; [done|]. split.
      * exists x. split; [done|]. split; [done|]. intros g0 Hg0.
        rewrite Hg0 in Hgo. destruct (galaxyParticles w) as [g|] eqn:Hgp; [|done].
        injection Hgo as Hgo. rewrite Hgo. by apply Hg.
      * rewrite Hlen.
        destruct (galaxyParticles w), (galaxyParticles (state_of _)); done.
  - unfold step, particleCount_onFinishChange, createExplosionParticles, scene_ok.
    simpl. rewrite Hx. simpl.
    split; [|split; [|split]].
    + apply NoDup_app. split; [by apply NoDup_filter|].
      split; [|apply NoDup_singleton].
      intros o Ho Ho'. apply list_elem_of_singleton in Ho'.
      apply list_elem_of_filter in Ho as [_ Ho]. specialize (Hlt o Ho). lia.
    + intros o Ho. apply elem_of_app in Ho as [Ho|Ho].
      * apply list_elem_of_filter in Ho as [_ Ho]. specialize (Hlt o Ho). lia.
      * apply list_elem_of_singleton in Ho. lia.
    + eexists. split; [reflexivity|].
      split; [apply elem_of_app; right; by apply list_elem_of_singleton|].
      intros g Hgp. destruct (Hg g Hgp) as [Hin Hne]. split.
      * apply elem_of_app. left. by apply list_elem_of_filter.
      * specialize (Hlt _ Hin). lia.
    + rewrite length_app. simpl.
      pose proof (filter_remove_length x (scene w) Hnd Hxin). lia.
Qed.

Lemma init_scene_ok : scene_ok (init Math_random setHSL).
Proof.
  unfold scene_ok, init, createExplosionParticles. simpl.
  split; [|split; [|split; [|done]]].
  - repeat (apply NoDup_cons; split;
            [rewrite ?not_elem_of_cons; repeat split; (lia || apply not_elem_of_nil)|]).
    apply NoDup_nil_2.
  - intros o Ho. repeat (apply elem_of_cons in Ho as [->|Ho]; [lia|]).
    by apply elem_of_nil in Ho.
  - exists 2. split; [done|]. split; [|done].
    do 2 apply list_elem_of_further. apply list_elem_of_here.
Qed.

End Scene.

(** X6. At every state of a run from [init], whatever its events, the
    scene holds each of its objects once: the two lights, the explosion
    system in use and, once the latch is set, the galaxy.  Changes of the
    particle count do not pile up particle systems in the scene. *)
Theorem run_scene (Math_random : nat -> number)
    (setHSL : number -> number -> number -> number * number * number)
    (events : list event) :
  let w := run Math_random setHSL (init Math_random setHSL) events in
  scene_ok w /\
  length (scene w) = 3 + (if created (galaxyParams w) then 1 else 0).
Proof.
  cbv zeta.
  assert (Hrun : forall w,
            scene_ok w ->
            (created (galaxyParams w) = true <-> is_Some (galaxyParticles w)) ->
            scene_ok (run Math_random setHSL w events)).
  { induction events as [|e events IH]; intros w Hw Hiff; [exact Hw|].
    rewrite run_cons. apply IH.
    - by apply step_scene_ok.
    - by apply step_galaxy_present. }
  assert (Hok : scene_ok (run Math_random setHSL (init Math_random setHSL) events)).
  { apply Hrun; [apply init_scene_ok|].
    exact (galaxy_present_iff_created Math_random setHSL []). }
  split; [exact Hok|].
  destruct Hok as (_ & _ & _ & ->).
  pose proof (galaxy_present_iff_created Math_random setHSL events) as Hiff.
  cbv zeta in Hiff.
  destruct (galaxyParticles _) as [g|], (created _); try done.
  - destruct Hiff as [_ Hiff]. by discriminate Hiff.
  - destruct Hiff as [Hiff _]. by destruct Hiff.
Qed.

(** X7. The function given to [onFinishChange] takes the old explosion
    system out of the scene and puts the new one in, every other object of
    the scene staying: the scene has as many objects after as before. *)
Theorem regenerate_replaces_object (Math_random : nat -> number)
    (setHSL : number -> number -> number -> number * number * number)
    (value : nat) (w : World) (old : nat) :
  scene_ok w ->
  explosionParticles w = Some old ->
  let w' := particleCount_onFinishChange Math_random setHSL value w in
  (old ∉ scene w') /\
  explosionParticles w' = Some (nextObject w) /\
  nextObject w ∈ scene w' /\
  (forall o, o <> old -> o ∈ scene w -> o ∈ scene w') /\
  length (scene w') = length (scene w).
Proof.
  intros (Hnd & Hlt & (x & Hx & Hxin & _) & _) Hold w'.
  rewrite Hold in Hx. injection Hx as <-.
  unfold w', particleCount_onFinishChange, createExplosionParticles. simpl.
  rewrite Hold. simpl. split; [|split; [done|split; [|split]]].
  - intros Hin. apply elem_of_app in Hin as [Hin|Hin].
    + apply list_elem_of_filter in Hin as [Hne _]. by apply Hne.
    + apply list_elem_of_singleton in Hin. specialize (Hlt old Hxin). lia.
  - apply elem_of_app. right. by apply list_elem_of_singleton.
  - intros o Ho Hin. apply elem_of_app. left. by apply list_elem_of_filter.
  - rewrite length_app. simpl.
    pose proof (filter_remove_length old (scene w) Hnd Hxin). lia.
Qed.

Lemma one_particle_scene_ok : scene_ok one_particle.
Proof.
  unfold scene_ok. simpl. split; [|split; [|split; [|done]]].
  - repeat (apply NoDup_cons; split;
            [rewrite ?not_elem_of_cons; repeat split; (lia || apply not_elem_of_nil)|]).
    apply NoDup_nil_2.
  - intros o Ho. repeat (apply elem_of_cons in Ho as [->|Ho]; [lia|]).
    by apply elem_of_nil in Ho.
  - exists 2. split; [done|]. split; [|done].
    do 2 apply list_elem_of_further. apply list_elem_of_here.
Defined.

Lemma regenerate_replaces_object_witness :
  (scene_ok one_particle /\ explosionParticles one_particle = Some 2) /\
  let w' := particleCount_onFinishChange halves grey 4 one_particle in
  (2 ∉ scene w') /\
  explosionParticles w' = Some (nextObject one_particle) /\
  nextObject one_particle ∈ scene w' /\
  (forall o, o <> 2 -> o ∈ scene one_particle -> o ∈ scene w') /\
  length (scene w') = length (scene one_particle).
Proof.
  split; [split; [exact one_particle_scene_ok | reflexivity]|].
  exact (regenerate_replaces_object halves grey 4 one_particle 2
           one_particle_scene_ok eq_refl).
Defined.

(** ** Further properties: changes of the particle count *)

(** X8. A particle count of zero is no error: the function given to
    [onFinishChange] then leaves empty buffers and no velocity, calls
    [Math.random] not once, and every tick afterwards returns, with the
    clock advanced and the buffer still empty. *)
Theorem regenerate_to_zero (Math_random : nat -> number)
    (setHSL : number -> number -> number -> number * number * number)
    (delta : number) (w : World) :
  let w0 := particleCount_onFinishChange Math_random setHSL 0 w in
  explosionVelocities w0 = [] /\
  explosionGeometry w0 = {| position := []; color := []; size := [] |} /\
  randomCalls w0 = randomCalls w /\
  exists w',
    animate Math_random setHSL delta w0 = Normal w' /\
    position (explosionGeometry w') = [] /\
    explosionTime (explosionParams w') =
      (explosionTime (explosionParams w)
       + delta * expansionSpeed (explosionParams w))%js.
Proof.
  cbv zeta. split; [done|]. split; [done|]. split; [done|].
  destruct (animate_explosion Math_random setHSL delta
              (particleCount_onFinishChange Math_random setHSL 0 w))
    as (w' & Hret & Hpar & _ & Hgeo & _); [done | done |].
  exists w'. split; [exact Hret|]. by rewrite Hgeo, Hpar.
Qed.

(** X9. The function given to [onFinishChange] repairs the state, whatever
    the state it is called in: afterwards the velocity array and the
    position buffer have the length of the particle count, and the next
    tick returns, also when the ticks before threw under a raised count. *)
Theorem finished_change_repairs (Math_random : nat -> number)
    (setHSL : number -> number -> number -> number * number * number)
    (value : nat) (delta : number) (w : World) :
  let w1 := particleCount_onFinishChange Math_random setHSL value w in
  consistent w1 /\
  returns (animate Math_random setHSL delta w1) = true /\
  consistent (state_of (animate Math_random setHSL delta w1)).
Proof.
  cbv zeta.
  pose proof (onFinishChange_consistent Math_random setHSL value w) as Hw.
  split; [exact Hw|].
  destruct (animate_consistent Math_random setHSL delta _ Hw)
    as (w' & Hret & Hv & Hn & _ & _ & Hp & _).
  rewrite Hret. simpl. split; [done|]. destruct Hw as [Hw1 Hw2].
  split; congruence.
Qed.

(** ** Further properties: runs under the ranges of the panel *)

Section Panel.

Variable Math_random : nat -> number.
Variable setHSL : number -> number -> number -> number * number * number.

Lemma step_ranges (w : World) (e : event) :
  gui_event e ->
  speed_in_range w -> spread_in_range w ->
  speed_in_range (step Math_random setHSL w e) /\
  spread_in_range (step Math_random setHSL w e).
Proof.
  intros He Hs Hp. unfold speed_in_range, spread_in_range in *.
  destruct e as [delta|v|v|v|v|v]; simpl in *; try (split; assumption).
  destruct (animate_keeps Math_random setHSL delta w)
    as (_ & _ & _ & _ & _ & _ & -> & _ & ->).
  by split.
Qed.

Lemma step_clock (w : World) (e : event) (t : R) :
  gui_event e ->
  speed_in_range w ->
  explosionTime (explosionParams w) = Fin t ->
  exists t' : R,
    explosionTime (explosionParams (step Math_random setHSL w e)) = Fin t' /\
    (t <= t')%R.
Proof.
  intros He (s & Hs & Hrange) Ht.
  destruct e as [delta|v|v|v|v|v]; simpl in *;
    try (exists t; split; [assumption | lra]).
  destruct He as (d & -> & Hd).
  rewrite animate_clock, Ht, Hs. simpl. eexists; split; [reflexivity | nra].
Qed.

Lemma run_clock (events : list event) (w : World) (t : R) :
  Forall gui_event events ->
  speed_in_range w -> spread_in_range w ->
  explosionTime (explosionParams w) = Fin t ->
  exists t' : R,
    explosionTime (explosionParams (run Math_random setHSL w events)) = Fin t' /\
    (t <= t')%R /\
    speed_in_range (run Math_random setHSL w events) /\
    spread_in_range (run Math_random setHSL w events).
Proof.
  revert w t. induction events as [|e events IH]; intros w t Hev Hs Hp Ht.
  - exists t. repeat split; (done || lra).
  - apply Forall_cons in Hev as [He Hev]. rewrite run_cons.
    destruct (step_clock w e t He Hs Ht) as (t1 & Ht1 & Hle).
    destruct (step_ranges w e He Hs Hp) as [Hs1 Hp1].
    destruct (IH _ t1 Hev Hs1 Hp1 Ht1) as (t' & Ht' & Hle' & Hs' & Hp').
    exists t'. repeat split; (done || lra).
Qed.

Lemma init_ranges :
  speed_in_range (init Math_random setHSL) /\
  spread_in_range (init Math_random setHSL).
Proof.
  split; [exists 1.0%R | exists 500%R]; (split; [reflexivity | lra]).
Qed.

End Panel.

(** X10. The explosion clock never runs back: in a run from [init] whose
    deltas are finite and not negative and whose parameter writes lie in
    the ranges of the panel, the clock is a finite number, at least 0, and
    at no state smaller than at an earlier one, also across changes of the
    particle count and ticks that throw. *)
Theorem clock_monotone (Math_random : nat -> number)
    (setHSL : number -> number -> number -> number * number * number)
    (events1 events2 : list event) :
  Forall gui_event (events1 ++ events2) ->
  exists t1 t2 : R,
    explosionTime
      (explosionParams (run Math_random setHSL (init Math_random setHSL) events1)) =
      Fin t1 /\
    explosionTime
      (explosionParams
         (run Math_random setHSL (init Math_random setHSL) (events1 ++ events2))) =
      Fin t2 /\
    (0 <= t1 <= t2)%R.
Proof.
  intros Hev. apply Forall_app in Hev as [Hev1 Hev2].
  destruct (init_ranges Math_random setHSL) as [Hs Hp].
  assert (H0 : explosionTime (explosionParams (init Math_random setHSL)) = Fin 0).
  { change (Fin 0.0 = Fin 0). f_equal. lra. }
  destruct (run_clock Math_random setHSL events1 (init Math_random setHSL) 0
              Hev1 Hs Hp H0) as (t1 & Ht1 & Hle1 & Hs1 & Hp1).
  destruct (run_clock Math_random setHSL events2 _ t1 Hev2 Hs1 Hp1 Ht1)
    as (t2 & Ht2 & Hle2 & _).
  exists t1, t2. rewrite run_app. repeat split; (done || lra).
Qed.

Lemma panel_run_gui : Forall gui_event panel_run.
Proof.
  unfold panel_run. repeat apply Forall_cons_2; try apply Forall_nil_2; simpl.
  - exists 2%R. split; [reflexivity | lra].
  - exists 3%R. split; [reflexivity | lra].
  - exists 4%R. split; [reflexivity | lra].
  - reflexivity.
  - reflexivity.
  - exists 300%R. split; [reflexivity | lra].
  - exists 0.5%R. split; [reflexivity | lra].
Defined.

Lemma clock_monotone_witness :
  Forall gui_event (take 3 panel_run ++ drop 3 panel_run) /\
  exists t1 t2 : R,
    explosionTime
      (explosionParams (run halves grey (init halves grey) (take 3 panel_run))) =
      Fin t1 /\
    explosionTime
      (explosionParams
         (run halves grey (init halves grey)
            (take 3 panel_run ++ drop 3 panel_run))) =
      Fin t2 /\
    (0 <= t1 <= t2)%R.
Proof.
  split; [exact panel_run_gui|].
  exact (clock_monotone halves grey (take 3 panel_run) (drop 3 panel_run)
           panel_run_gui).
Defined.

(** ** Further properties: the galaxy from its creation on *)

Section Galaxy.

Variable Math_random : nat -> number.
Variable setHSL : number -> number -> number -> number * number * number.


(** The galaxy after the tick that creates it: the one
    [createGalaxyParticles] makes in the state the tick started in, turned
    once. *)
Lemma animate_creates (delta : number) (w : World) :
  fires Math_random setHSL delta w = true ->
  exists g0,
    galaxyParticles (createGalaxyParticles Math_random setHSL w) = Some g0 /\
    galaxyParticles (state_of (animate Math_random setHSL delta w)) =
      Some {| galaxyObject := galaxyObject g0;
              galaxyGeometry := galaxyGeometry g0;
              rotation_y := (rotation_y g0 + Fin 0.0005)%js |} /\
    created (galaxyParams (state_of (animate Math_random setHSL delta w))) = true.
Proof.
  unfold fires, exceeds_threshold, step. rewrite animate_clock.
  unfold animate. simpl.
  destruct (for_loop_throwing _ _ _) as [ps|ps]; simpl; [|done].
  destruct (created (galaxyParams w)); simpl; [done|].
  intros ->. eexists. split; [reflexivity|]. by split.
Qed.

Lemma step_galaxy_absent (w : World) (e : event) :
  (created (galaxyParams w) = true <-> is_Some (galaxyParticles w)) ->
  created (galaxyParams w) = false ->
  match e with
  | Frame delta => fires Math_random setHSL delta w
  | _ => false
  end = false ->
  galaxyParticles (step Math_random setHSL w e) = None.
Proof.
  intros Hiff Hc Hnow.
  pose proof (step_galaxy_present Math_random setHSL w e Hiff) as Hiff'.
  destruct (step_latch Math_random setHSL w e) as (Hc' & _).
  cbv zeta in Hc'. rewrite Hnow, Hc in Hc'. simpl in Hc'.
  destruct (galaxyParticles (step Math_random setHSL w e)) as [g|]; [|done].
  destruct Hiff' as [_ Hiff']. rewrite Hc' in Hiff'. by discriminate Hiff'.
Qed.

End Galaxy.



Lemma step_galaxy_within (Math_random : nat -> number)
    (setHSL : number -> number -> number -> number * number * number)
    (w : World) (e : event) :
  (forall k, exists u : R, Math_random k = Fin u /\ (0 <= u < 1)%R) ->
  spread_in_range w ->
  (created (galaxyParams w) = true <-> is_Some (galaxyParticles w)) ->
  galaxy_within 50 1050 w ->
  galaxy_within 50 1050 (step Math_random setHSL w e).
Proof.
  intros Hrand (s & Hs & Hrange) Hiff Hw.
  destruct (decide (created (galaxyParams w) = true)) as [Hc|Hc].
  { destruct (step_latch Math_random setHSL w e) as (_ & _ & Hb).
    unfold galaxy_within. rewrite Hb by done. exact Hw. }
  apply not_true_is_false in Hc.
  destruct (match e with
            | Frame delta => fires Math_random setHSL delta w
            | _ => false
            end) eqn:Hnow.
  - destruct e as [delta|v|v|v|v|v]; try discriminate Hnow.
    destruct (animate_creates Math_random setHSL delta w Hnow)
      as (g0 & Hg0 & Hg & _).
    destruct (createGalaxyParticles_geometry Math_random setHSL w)
      as (g1 & Hg1 & Hlen & _ & _ & Hcells).
    rewrite Hg0 in Hg1. injection Hg1 as <-.
    intros geometry Hgeo i Hi. unfold galaxyBuffers, step in Hgeo.
    rewrite Hg in Hgeo. injection Hgeo as <-.
    rewrite Hlen in Hi. rewrite Hcells by lia. rewrite Hs.
    destruct (Hrand (randomCalls w + 3 * i)) as (u1 & H1 & Hu1).
    destruct (Hrand (randomCalls w + 3 * i + 1)) as (u2 & H2 & Hu2).
    destruct (Hrand (randomCalls w + 3 * i + 2)) as (u3 & H3 & Hu3).
    destruct (galaxySeed_distance Math_random s _ u1 u2 u3 H1 H2 H3 Hu1 Hu3)
      as (x & y & z & -> & Hd); [lra|].
    exists x, y, z. split; [done | lra].
  - intros geometry Hgeo. unfold galaxyBuffers in Hgeo.
    rewrite (step_galaxy_absent Math_random setHSL w e) in Hgeo by done.
    discriminate Hgeo.
Qed.

(** X12. In a run from [init] with a random source in [0, 1), deltas that
    are finite and not negative and parameter writes in the ranges of the
    panel, every particle of the galaxy, from the tick that creates it on,
    is at a distance from the origin between 50 and 1050: the spread stays
    between 100 and 1000, and nothing moves a galaxy particle. *)
Theorem galaxy_within_panel_ranges (Math_random : nat -> number)
    (setHSL : number -> number -> number -> number * number * number)
    (events : list event) :
  (forall k, exists u : R, Math_random k = Fin u /\ (0 <= u < 1)%R) ->
  Forall gui_event events ->
  galaxy_within 50 1050 (run Math_random setHSL (init Math_random setHSL) events).
Proof.
  intros Hrand Hev.
  assert (Hrun : forall w,
            speed_in_range w -> spread_in_range w ->
            (created (galaxyParams w) = true <-> is_Some (galaxyParticles w)) ->
            galaxy_within 50 1050 w ->
            galaxy_within 50 1050 (run Math_random setHSL w events)).
  { induction Hev as [|e events He Hev IH]; intros w Hs Hp Hiff Hw; [exact Hw|].
    rewrite run_cons.
    destruct (step_ranges Math_random setHSL w e He Hs Hp) as [Hs1 Hp1].
    apply IH; [done | done | by apply step_galaxy_present |].
    by apply step_galaxy_within. }
  destruct (init_ranges Math_random setHSL) as [Hs Hp].
  apply Hrun; [done | done | |].
  - exact (galaxy_present_iff_created Math_random setHSL []).
  - intros geometry Hgeo. discriminate Hgeo.
Qed.

Lemma galaxy_within_panel_ranges_witness :
  ((forall k, exists u : R, quarters k = Fin u /\ (0 <= u < 1)%R) /\
   Forall gui_event panel_run) /\
  galaxy_within 50 1050 (run quarters grey (init quarters grey) panel_run).
Proof.
  assert (Hq : forall k, exists u : R, quarters k = Fin u /\ (0 <= u < 1)%R).
  { intros k. exists 0.25%R. split; [reflexivity | lra]. }
  split; [split; [exact Hq | exact panel_run_gui]|].
  exact (galaxy_within_panel_ranges quarters grey panel_run Hq panel_run_gui).
Defined.

Lemma step_rotation (Math_random : nat -> number)
    (setHSL : number -> number -> number -> number * number * number)
    (w : World) (e : event) (g : GalaxyPoints) :
  consistent w ->
  created (galaxyParams w) = true ->
  galaxyParticles w = Some g ->
  finished_changes_only [e] = true ->
  galaxyParticles (step Math_random setHSL w e) =
    Some {| galaxyObject := galaxyObject g;
            galaxyGeometry := galaxyGeometry g;
            rotation_y :=
              match e with
              | Frame _ => (rotation_y g + Fin 0.0005)%js
              | _ => rotation_y g
              end |}.
Proof.
  intros [Hv Hp] Hc Hg He.
  destruct e as [delta|v|v|v|v|v]; simpl in *; try done;
    try (rewrite Hg; by destruct g).
  rewrite animate_returns by lia. rewrite Hc. simpl.
  unfold rotateGalaxy. simpl. by rewrite Hg.
Qed.

(** ** Further properties: the particles of the explosion *)

Lemma createExplosionParticles_cells (Math_random : nat -> number)
    (setHSL : number -> number -> number -> number * number * number)
    (w : World) (i : nat) :
  i < particleCount (explosionParams w) ->
  let w' := createExplosionParticles Math_random setHSL w in
  cells (position (explosionGeometry w')) i =
    Some (explosionSeed Math_random (randomCalls w + 9 * i)) /\
  cells (color (explosionGeometry w')) i =
    Some (setHSL (Fin 0.1) (Fin 1.0) (Fin 0.8)) /\
  size (explosionGeometry w') !! i = Some (Fin 2.0).
Proof.
  intros Hi. unfold createExplosionParticles. simpl.
  match goal with |- context [for_loop ?n ?f ?b] =>
    apply (explosion_loop_cells Math_random setHSL n b) end;
    simpl; rewrite ?length_Float32Array; lia.
Qed.

(** X14. With a random source in [0, 1), every particle made by
    [createExplosionParticles] is seeded at a distance below 0.1 from the
    origin.  (The first tick then overwrites the seed: X1.) *)
Theorem explosion_seed_near_origin (Math_random : nat -> number)
    (setHSL : number -> number -> number -> number * number * number)
    (w : World) (i : nat) :
  (forall k, exists u : R, Math_random k = Fin u /\ (0 <= u < 1)%R) ->
  i < particleCount (explosionParams w) ->
  exists x y z : R,
    cells (position (explosionGeometry
                       (createExplosionParticles Math_random setHSL w))) i =
      Some (Fin x, Fin y, Fin z) /\
    (sqrt (x * x + y * y + z * z) < 0.1)%R.
Proof.
  intros Hrand Hi.
  destruct (createExplosionParticles_cells Math_random setHSL w i Hi) as (-> & _).
  destruct (Hrand (randomCalls w + 9 * i)) as (u1 & H1 & Hu1).
  destruct (Hrand (randomCalls w + 9 * i + 1)) as (u2 & H2 & Hu2).
  destruct (Hrand (randomCalls w + 9 * i + 2)) as (u3 & H3 & Hu3).
  destruct (explosionSeed_distance Math_random _ u1 u2 u3 H1 H2 H3 Hu1 Hu3)
    as (x & y & z & -> & Hd).
  by exists x, y, z.
Qed.

Lemma explosion_seed_near_origin_witness :
  ((forall k, exists u : R, quarters k = Fin u /\ (0 <= u < 1)%R) /\
   0 < particleCount (explosionParams one_particle)) /\
  exists x y z : R,
    cells (position (explosionGeometry
                       (createExplosionParticles quarters grey one_particle))) 0 =
      Some (Fin x, Fin y, Fin z) /\
    (sqrt (x * x + y * y + z * z) < 0.1)%R.
Proof.
  assert (Hq : forall k, exists u : R, quarters k = Fin u /\ (0 <= u < 1)%R).
  { intros k. exists 0.25%R. split; [reflexivity | lra]. }
  assert (Hi : 0 < particleCount (explosionParams one_particle)) by (simpl; lia).
  split; [split; [exact Hq | exact Hi]|].
  exact (explosion_seed_near_origin quarters grey one_particle 0 Hq Hi).
Defined.



(** X16. With a random source in [0, 1), a particle made by a finished
    change of the particle count whose three direction draws are not all
    0.5 has a raw direction of length above 0 and a velocity of length
    between 2 and 7. *)
Theorem velocity_magnitude_in_range (Math_random : nat -> number)
    (setHSL : number -> number -> number -> number * number * number)
    (value : nat) (w : World) (i : nat) :
  (forall k, exists u : R, Math_random k = Fin u /\ (0 <= u < 1)%R) ->
  i < value ->
  ~ (Math_random (randomCalls w + 9 * i + 3) = Fin 0.5 /\
     Math_random (randomCalls w + 9 * i + 4) = Fin 0.5 /\
     Math_random (randomCalls w + 9 * i + 5) = Fin 0.5) ->
  exists (v : Vec.t) (len m : R),
    explosionVelocities
      (particleCount_onFinishChange Math_random setHSL value w) !! i = Some v /\
    norm3 (rawDirection Math_random (randomCalls w + 9 * i + 3)) = Fin len /\
    (0 < len)%R /\
    magnitude v = Fin m /\
    (2 <= m <= 7)%R.
Proof.
  intros Hrand Hi Hnz.
  set (k := randomCalls w + 9 * i + 3).
  destruct (Hrand k) as (u0 & H0 & Hu0).
  destruct (Hrand (k + 1)) as (u1 & H1 & Hu1).
  destruct (Hrand (k + 2)) as (u2 & H2 & Hu2).
  destruct (Hrand (k + 3)) as (u3 & H3 & Hu3).
  destruct (Hrand (k + 4)) as (u4 & H4 & Hu4).
  destruct (Hrand (k + 5)) as (u5 & H5 & Hu5).
  destruct (explosionVelocity_magnitude Math_random k u0 u1 u2 u3 u4 u5)
    as (len & m & Hn & Hlen & Hm & Hrange); try done.
  { intros (-> & -> & ->). apply Hnz. fold k.
    replace (randomCalls w + 9 * i + 4) with (k + 1) by (unfold k; lia).
    replace (randomCalls w + 9 * i + 5) with (k + 2) by (unfold k; lia).
    done. }
  exists (explosionVelocity Math_random k), len, m.
  split; [|done].
  unfold particleCount_onFinishChange.
  rewrite createExplosionParticles_velocities. simpl.
  match goal with |- map ?f ?l !! _ = _ => change (map f l) with (f <$> l) end.
  rewrite list_lookup_fmap, lookup_seq_lt by done. reflexivity.
Qed.

Lemma velocity_magnitude_in_range_witness :
  ((forall k, exists u : R, quarters k = Fin u /\ (0 <= u < 1)%R) /\
   0 < 1 /\
   ~ (quarters (randomCalls one_particle + 9 * 0 + 3) = Fin 0.5 /\
      quarters (randomCalls one_particle + 9 * 0 + 4) = Fin 0.5 /\
      quarters (randomCalls one_particle + 9 * 0 + 5) = Fin 0.5)) /\
  exists (v : Vec.t) (len m : R),
    explosionVelocities
      (particleCount_onFinishChange quarters grey 1 one_particle) !! 0 = Some v /\
    norm3 (rawDirection quarters (randomCalls one_particle + 9 * 0 + 3)) = Fin len /\
    (0 < len)%R /\
    magnitude v = Fin m /\
    (2 <= m <= 7)%R.
Proof.
  assert (Hq : forall k, exists u : R, quarters k = Fin u /\ (0 <= u < 1)%R).
  { intros k. exists 0.25%R. split; [reflexivity | lra]. }
  assert (Hnz : ~ (quarters (randomCalls one_particle + 9 * 0 + 3) = Fin 0.5 /\
                   quarters (randomCalls one_particle + 9 * 0 + 4) = Fin 0.5 /\
                   quarters (randomCalls one_particle + 9 * 0 + 5) = Fin 0.5)).
  { intros (H & _). unfold quarters in H. injection H as H. lra. }
  assert (Hi : 0 < 1) by lia.
  split; [split; [exact Hq | split; [exact Hi | exact Hnz]]|].
  exact (velocity_magnitude_in_range quarters grey 1 one_particle 0 Hq Hi Hnz).
Defined.

(** The explosion after a tick of a state whose arrays have the length of
    the particle count. *)
Lemma tick_explosion (Math_random : nat -> number)
    (setHSL : number -> number -> number -> number * number * number)
    (delta : number) (w : World) :
  consistent w ->
  exists w',
    animate Math_random setHSL delta w = Normal w' /\
    explosionParams w' =
      {| particleCount := particleCount (explosionParams w);
         expansionSpeed := expansionSpeed (explosionParams w);
         explosionTime :=
           (explosionTime (explosionParams w)
            + delta * expansionSpeed (explosionParams w))%js |} /\
    explosionVelocities w' = explosionVelocities w /\
    explosionGeometry w' =
      {| position :=
           positions_at
             (explosionTime (explosionParams w)
              + delta * expansionSpeed (explosionParams w))%js
             (explosionVelocities w);
         color := color (explosionGeometry w);
         size := size (explosionGeometry w) |}.
Proof.
  intros [Hv Hp].
  destruct (animate_explosion Math_random setHSL delta w)
    as (w' & Hret & Hpar & Hvel & Hgeo & _); [lia | lia |].
  exists w'. split; [done|]. split; [done|]. split; [done|].
  rewrite Hgeo. by rewrite <- Hv, firstn_all, drop_ge, app_nil_r by lia.
Qed.

Lemma magnitude_finite (v : Vec.t) (m : R) :
  magnitude v = Fin m ->
  exists a b c : R,
    v = Vec.mk (Fin a) (Fin b) (Fin c) /\ m = sqrt (a * a + b * b + c * c).
Proof.
  destruct v as [x y z]. unfold magnitude. simpl.
  destruct x as [a| | |], y as [b| | |], z as [c| | |]; simpl;
    try discriminate.
  destruct (decide (a * a + b * b + c * c < 0)%R); [discriminate|].
  intros H. injection H as <-. by exists a, b, c.
Qed.

Lemma scaled_distance (a b c t : R) :
  (0 <= t)%R ->
  sqrt (a * t * (a * t) + b * t * (b * t) + c * t * (c * t)) =
    (sqrt (a * a + b * b + c * c) * t)%R.
Proof.
  intros Ht.
  replace (a * t * (a * t) + b * t * (b * t) + c * t * (c * t))%R
    with ((a * a + b * b + c * c) * (t * t))%R by ring.
  rewrite sqrt_mult by nra. by rewrite sqrt_square.
Qed.

(** X17. After a tick, a particle is as far from the origin as its speed
    times the clock: with a velocity of finite length [m] and a clock [t]
    that is finite and not negative, the distance is [m * t].  The
    explosion keeps its shape and only grows. *)
Theorem distance_is_speed_times_clock (Math_random : nat -> number)
    (setHSL : number -> number -> number -> number * number * number)
    (delta : number) (w : World) (i : nat) (v : Vec.t) (m t : R) :
  consistent w ->
  explosionVelocities w !! i = Some v ->
  magnitude v = Fin m ->
  (explosionTime (explosionParams w)
   + delta * expansionSpeed (explosionParams w))%js = Fin t ->
  (0 <= t)%R ->
  exists (w' : World) (x y z : R),
    animate Math_random setHSL delta w = Normal w' /\
    cells (position (explosionGeometry w')) i = Some (Fin x, Fin y, Fin z) /\
    sqrt (x * x + y * y + z * z) = (m * t)%R.
Proof.
  intros Hw Hiv Hm Hclock Ht.
  destruct (animate_consistent Math_random setHSL delta w Hw)
    as (w' & Hret & _ & _ & _ & Ht' & _ & Hcells).
  destruct (magnitude_finite v m Hm) as (a & b & c & -> & ->).
  exists w'. specialize (Hcells i _ Hiv). rewrite Ht', Hclock in Hcells.
  simpl in Hcells. do 3 eexists. split; [exact Hret|]. split; [exact Hcells|].
  by apply scaled_distance.
Qed.

Lemma distance_is_speed_times_clock_witness :
  (consistent one_particle /\
   explosionVelocities one_particle !! 0 = Some (Vec.mk (Fin 1) (Fin 2) (Fin 3)) /\
   magnitude (Vec.mk (Fin 1) (Fin 2) (Fin 3)) =
     Fin (sqrt (1 * 1 + 2 * 2 + 3 * 3)) /\
   (explosionTime (explosionParams one_particle)
    + Fin 5 * expansionSpeed (explosionParams one_particle))%js = Fin (0 + 5 * 2) /\
   (0 <= 0 + 5 * 2)%R) /\
  exists (w' : World) (x y z : R),
    animate halves grey (Fin 5) one_particle = Normal w' /\
    cells (position (explosionGeometry w')) 0 = Some (Fin x, Fin y, Fin z) /\
    sqrt (x * x + y * y + z * z) = (sqrt (1 * 1 + 2 * 2 + 3 * 3) * (0 + 5 * 2))%R.
Proof.
  assert (Hw : consistent one_particle) by (split; reflexivity).
  assert (Hm : magnitude (Vec.mk (Fin 1) (Fin 2) (Fin 3)) =
               Fin (sqrt (1 * 1 + 2 * 2 + 3 * 3))).
  { unfold magnitude. simpl.
    destruct (decide (1 * 1 + 2 * 2 + 3 * 3 < 0)%R) as [H|_]; [lra | done]. }
  assert (Ht : (0 <= 0 + 5 * 2)%R) by lra.
  split; [by repeat split|].
  exact (distance_is_speed_times_clock halves grey (Fin 5) one_particle 0 _ _ _
           Hw eq_refl Hm eq_refl Ht).
Defined.

(** X18. In exact arithmetic the explosion depends on the time passed, not
    on how the ticks cut it: from a state with finite clock and speed, two
    ticks of finite deltas leave the explosion parameters, the velocities
    and the buffers of the explosion as one tick of the sum of the deltas
    does. *)
Theorem two_ticks_as_one (Math_random : nat -> number)
    (setHSL : number -> number -> number -> number * number * number)
    (w : World) (d1 d2 t s : R) :
  consistent w ->
  explosionTime (explosionParams w) = Fin t ->
  expansionSpeed (explosionParams w) = Fin s ->
  let w2 := run Math_random setHSL w [Frame (Fin d1); Frame (Fin d2)] in
  let w' := run Math_random setHSL w [Frame (Fin (d1 + d2))] in
  explosionParams w2 = explosionParams w' /\
  explosionVelocities w2 = explosionVelocities w' /\
  explosionGeometry w2 = explosionGeometry w'.
Proof.
  intros Hw Ht Hs. cbv zeta. unfold run. simpl.
  destruct (tick_explosion Math_random setHSL (Fin d1) w Hw)
    as (w1 & Hret1 & Hpar1 & Hv1 & Hgeo1).
  rewrite Hret1. simpl.
  assert (Hw1 : consistent w1).
  { destruct Hw as [Hwv Hwp]. split.
    - rewrite Hv1, Hpar1. exact Hwv.
    - rewrite Hgeo1, Hpar1. simpl. rewrite length_positions_at. lia. }
  destruct (tick_explosion Math_random setHSL (Fin d2) w1 Hw1)
    as (w2 & Hret2 & Hpar2 & Hv2 & Hgeo2).
  destruct (tick_explosion Math_random setHSL (Fin (d1 + d2)) w Hw)
    as (w' & Hret' & Hpar' & Hv' & Hgeo').
  rewrite Hret2, Hret'. simpl.
  assert (Htime : (explosionTime (explosionParams w1)
                   + Fin d2 * expansionSpeed (explosionParams w1))%js =
                  (explosionTime (explosionParams w)
                   + Fin (d1 + d2) * expansionSpeed (explosionParams w))%js).
  { rewrite Hpar1. simpl. rewrite Ht, Hs. simpl. f_equal. lra. }
  rewrite Hpar2, Hpar', Hgeo2, Hgeo', Htime, Hv2, Hv', Hv1, Hpar1, Hgeo1.
  simpl. done.
Qed.

Lemma two_ticks_as_one_witness :
  (consistent one_particle /\
   explosionTime (explosionParams one_particle) = Fin 0 /\
   expansionSpeed (explosionParams one_particle) = Fin 2) /\
  let w2 := run halves grey one_particle [Frame (Fin 1); Frame (Fin 3)] in
  let w' := run halves grey one_particle [Frame (Fin (1 + 3))] in
  explosionParams w2 = explosionParams w' /\
  explosionVelocities w2 = explosionVelocities w' /\
  explosionGeometry w2 = explosionGeometry w'.
Proof.
  assert (Hw : consistent one_particle) by (split; reflexivity).
  split; [by repeat split|].
  exact (two_ticks_as_one halves grey one_particle 1 3 0 2 Hw eq_refl eq_refl).
Defined.

(** ** The position loop, whatever the numbers *)

Section ReachedParticles.

Context {A V : Type}.
Variable velocities : list V.
Variable scale : V -> A * A * A.
Variable body : nat -> list A -> completion (list A).
Hypothesis body_spec : forall i ps,
  body i ps =
    match velocities !! i with
    | None => TypeError ps
    | Some v => let '(x, y, z) := scale v in Normal (store3 i x y z ps)
    end.

(** After the loop, finished or thrown: the buffer has its length, the loop
    has thrown only past the last velocity, and every particle below the
    bound that has a velocity and cells holds the triple written for it. *)
Lemma position_loop_reached (n : nat) (ps : list A) :
  let r := for_loop_throwing n body ps in
  length (state_of r) = length ps /\
  (returns r = false -> length velocities < n) /\
  forall i v, i < n -> velocities !! i = Some v -> i * 3 + 2 < length ps ->
    cells (state_of r) i = Some (scale v).
Proof.
  induction n as [|n IH]; cbv zeta.
  - rewrite for_loop_throwing_0. simpl. repeat split; try done. intros; lia.
  - rewrite for_loop_throwing_S. cbv zeta in IH.
    destruct IH as (Hlen & Hthrown & Hcells).
    destruct (for_loop_throwing n body ps) as [ps1|ps1]; simpl in *.
    + rewrite body_spec. destruct (velocities !! n) as [vn|] eqn:Hn; simpl.
      * destruct (scale vn) as [[x y] z] eqn:Hs. simpl.
        rewrite length_store3. split; [done|]. split; [done|].
        intros i v Hi Hiv Hfit. destruct (decide (i = n)) as [->|Hne].
        -- rewrite Hn in Hiv. injection Hiv as <-. rewrite Hs.
           apply cells_store3. lia.
        -- rewrite cells_store3_other by done. apply Hcells; [lia | done | done].
      * split; [done|]. split.
        -- intros _. apply lookup_ge_None_1 in Hn. lia.
        -- intros i v Hi Hiv Hfit. destruct (decide (i = n)) as [->|Hne].
           ++ rewrite Hn in Hiv. discriminate Hiv.
           ++ apply Hcells; [lia | done | done].
    + split; [done|]. split; [intros _; specialize (Hthrown eq_refl); lia|].
      intros i v Hi Hiv Hfit. destruct (decide (i < n)) as [Hlt|Hge].
      * by apply Hcells.
      * specialize (Hthrown eq_refl). apply lookup_lt_Some in Hiv. lia.
Qed.

End ReachedParticles.

(** ** The explosion as the script computes it *)

Lemma floats_differ (a b : float) :
  Prim2SF a <> Prim2SF b -> a <> b.
Proof. intros H ->. by apply H. Qed.

(** [fround] on a number binary32 has not, on a product of the kind the
    position loop stores, at a tie (to even), past the largest binary32
    (infinity), in the subnormal range, below it (zero), and on the special
    values. *)
Lemma fround_values :
  IEEE.fround 0.1 = 0.10000000149011612%float /\
  IEEE.fround (-1.876388374866284) = (-1.876388430595398)%float /\
  IEEE.fround 16777217 = 16777216%float /\
  IEEE.fround 1e40 = infinity /\
  IEEE.fround 1e-40 = 9.9999461011147596e-41%float /\
  IEEE.fround 1e-50 = 0%float /\
  IEEE.fround infinity = infinity /\
  IEEE.fround nan = nan.
Proof. repeat split; vm_compute; reflexivity. Qed.

(** The cells of a reached particle after lines 297 to 308, in the
    arithmetic of the script. *)
Lemma float32_cells (delta : float) (e : IEEE.Explosion) (i : nat)
    (v : IEEE.Velocity) :
  i < IEEE.particleCount e ->
  IEEE.explosionVelocities e !! i = Some v ->
  i * 3 + 2 < length (IEEE.position e) ->
  let e' := state_of (IEEE.animate delta e) in
  IEEE.explosionTime e' =
    (IEEE.explosionTime e + delta * IEEE.expansionSpeed e)%float /\
  IEEE.explosionVelocities e' = IEEE.explosionVelocities e /\
  cells (IEEE.position e') i =
    Some (IEEE.fround (IEEE.x v * IEEE.explosionTime e'),
          IEEE.fround (IEEE.y v * IEEE.explosionTime e'),
          IEEE.fround (IEEE.z v * IEEE.explosionTime e')).
Proof.
  intros Hi Hv Hfit. cbv zeta. unfold IEEE.animate.
  set (t := (IEEE.explosionTime e + delta * IEEE.expansionSpeed e)%float).
  destruct (position_loop_reached (IEEE.explosionVelocities e)
              (fun v => (IEEE.fround (IEEE.x v * t), IEEE.fround (IEEE.y v * t),
                         IEEE.fround (IEEE.z v * t)))
              (IEEE.animateBody (IEEE.explosionVelocities e) t)
              (fun _ _ => eq_refl)
              (IEEE.particleCount e) (IEEE.position e)) as (_ & _ & Hcells).
  specialize (Hcells i v Hi Hv Hfit).
  destruct (for_loop_throwing _ _ _) as [ps|ps]; simpl in *; by repeat split.
Qed.

(** C1, as the script has it.  After every tick, returning or throwing,
    every particle the position loop reaches (its index is below
    [particleCount], it has a velocity and its cells are in the buffer) has
    in each of its three cells the product of its velocity component and
    the explosion clock, rounded to binary32 by the store into the
    [Float32Array]; the clock is one number for all particles, the value
    [explosionTime + delta * expansionSpeed] the tick has just computed,
    and the velocities are as before. *)
Theorem float32_linear_law (delta : float) (e : IEEE.Explosion) (i : nat)
    (v : IEEE.Velocity) :
  i < IEEE.particleCount e ->
  IEEE.explosionVelocities e !! i = Some v ->
  i * 3 + 2 < length (IEEE.position e) ->
  let e' := state_of (IEEE.animate delta e) in
  IEEE.explosionTime e' =
    (IEEE.explosionTime e + delta * IEEE.expansionSpeed e)%float /\
  IEEE.explosionVelocities e' = IEEE.explosionVelocities e /\
  cells (IEEE.position e') i =
    Some (IEEE.fround (IEEE.x v * IEEE.explosionTime e'),
          IEEE.fround (IEEE.y v * IEEE.explosionTime e'),
          IEEE.fround (IEEE.z v * IEEE.explosionTime e')).
Proof. exact (float32_cells delta e i v). Qed.

Lemma float32_linear_law_witness :
  (0 < IEEE.particleCount IEEE.one_particle /\
   IEEE.explosionVelocities IEEE.one_particle !! 0 =
     Some {| IEEE.x := 2.1%float; IEEE.y := 3.3%float; IEEE.z := 0.7%float |} /\
   0 * 3 + 2 < length (IEEE.position IEEE.one_particle)) /\
  let e' := state_of (IEEE.animate 0.5%float IEEE.one_particle) in
  IEEE.explosionTime e' =
    (IEEE.explosionTime IEEE.one_particle
     + 0.5 * IEEE.expansionSpeed IEEE.one_particle)%float /\
  IEEE.explosionVelocities e' = IEEE.explosionVelocities IEEE.one_particle /\
  cells (IEEE.position e') 0 =
    Some (IEEE.fround (2.1 * IEEE.explosionTime e'),
          IEEE.fround (3.3 * IEEE.explosionTime e'),
          IEEE.fround (0.7 * IEEE.explosionTime e')).
Proof.
  assert (Hi : 0 < IEEE.particleCount IEEE.one_particle) by (simpl; lia).
  assert (Hfit : 0 * 3 + 2 < length (IEEE.position IEEE.one_particle))
    by (simpl; lia).
  split; [by repeat split|].
  exact (float32_linear_law 0.5%float IEEE.one_particle 0 _ Hi eq_refl Hfit).
Defined.

(** C1 as stated, at a tick of delta 0.5 on one particle of velocity
    (2.1, 3.3, 0.7): the clock becomes 0.5, and the first cell holds
    1.0499999523162842, the binary32 nearest to the product 1.05, not the
    product. *)
Lemma position_is_velocity_times_clock_counterexample :
  let e' := state_of (IEEE.animate 0.5%float IEEE.one_particle) in
  IEEE.explosionTime e' = 0.5%float /\
  cells (IEEE.position e') 0 =
    Some (1.0499999523162842, 1.6499999761581421, 0.34999999403953552)%float /\
  cells (IEEE.position e') 0 <>
    Some (2.1 * IEEE.explosionTime e', 3.3 * IEEE.explosionTime e',
          0.7 * IEEE.explosionTime e')%float.
Proof.
  cbv zeta. split; [vm_compute; reflexivity|]. split; [vm_compute; reflexivity|].
  intros H.
  apply (f_equal (fun c => match c with Some (a, _, _) => a | None => 0%float end))
    in H.
  vm_compute in H. revert H. apply floats_differ. vm_compute. discriminate.
Qed.

(** ** The galaxy as the script computes it *)

(** C7 as stated, at the draws 0, 0.1 and 0.2 with a spread of 500: the
    radius is 50, the position computed is about
    (32.3607, 23.5114, -30), and the three binary32 numbers the buffer
    holds of it, taken exactly (as multiples of 2^-60), have a sum of
    squares below 50 * 50: the stored particle is nearer to the origin than
    50. *)
Lemma galaxy_shell_counterexample :
  IEEE.galaxyStored IEEE.nearest IEEE.draws 500%float 0 =
    (32.360679626464844, 23.511409759521484, -30)%float /\
  exists X Y Z : Z,
    IEEE.in_units (-60) 32.360679626464844%float = Some X /\
    IEEE.in_units (-60) 23.511409759521484%float = Some Y /\
    IEEE.in_units (-60) (-30)%float = Some Z /\
    (X * X + Y * Y + Z * Z < 50 * 50 * 2 ^ 120)%Z.
Proof.
  split; [vm_compute; reflexivity|].
  eexists _, _, _.
  split; [vm_compute; reflexivity|].
  split; [vm_compute; reflexivity|].
  split; [vm_compute; reflexivity|].
  vm_compute. reflexivity.
Qed.

(** ** Runs in which every tick returns *)

Section ReturningRuns.

Variable Math_random : nat -> number.
Variable setHSL : number -> number -> number -> number * number * number.

Lemma ticks_return_finished (w : World) (events : list event) :
  consistent w ->
  finished_changes_only events = true ->
  ticks_return Math_random setHSL w events.
Proof.
  revert w. induction events as [|e events IH]; intros w Hw Hev; [done|].
  simpl in Hev. apply andb_prop in Hev as [He Hev]. split.
  - destruct e as [delta|v|v|v|v|v]; try done.
    destruct (animate_consistent Math_random setHSL delta w Hw) as (w' & -> & _).
    reflexivity.
  - apply IH; [|done]. apply step_consistent; [done|]. simpl. by rewrite He.
Qed.

Lemma traces_agree_returning (w : World) (events : list event) :
  ticks_return Math_random setHSL w events ->
  creation_trace Math_random setHSL w events =
    first_only (created (galaxyParams w))
      (threshold_trace Math_random setHSL w events) /\
  galaxyCreations (run Math_random setHSL w events) =
    galaxyCreations w
    + (if negb (created (galaxyParams w))
          && some_true (threshold_trace Math_random setHSL w events)
       then 1 else 0) /\
  created (galaxyParams (run Math_random setHSL w events)) =
    created (galaxyParams w)
    || some_true (threshold_trace Math_random setHSL w events).
Proof.
  revert w. induction events as [|e events IH]; intros w Hret.
  - simpl. rewrite andb_false_r, orb_false_r. repeat split; lia.
  - destruct Hret as [He Hret].
    destruct (IH _ Hret) as (IHt & IHn & IHc).
    destruct (step_latch Math_random setHSL w e) as (Hc & Hn & _).
    assert (Hnow : match e with
                   | Frame delta => fires Math_random setHSL delta w
                   | _ => false
                   end =
                   negb (created (galaxyParams w))
                   && exceeds_threshold Math_random setHSL w e).
    { destruct e as [delta|v|v|v|v|v];
        try (simpl; by rewrite andb_false_r).
      unfold fires. by rewrite He. }
    rewrite Hnow in Hc, Hn.
    rewrite run_cons. unfold some_true in *.
    cbn [creation_trace threshold_trace first_only existsb].
    rewrite IHt, IHn, IHc, Hc, Hn.
    destruct (created (galaxyParams w)), (exceeds_threshold _ _ w e); simpl;
      repeat split; try lia; try done.
    all: try (f_equal; lia).
    all: destruct (existsb _ _); lia.
Qed.

(** A tick that returns in a state with a galaxy turns it once. *)
Lemma animate_turns (delta : number) (w : World) (g : GalaxyPoints) :
  created (galaxyParams w) = true ->
  galaxyParticles w = Some g ->
  returns (animate Math_random setHSL delta w) = true ->
  galaxyParticles (state_of (animate Math_random setHSL delta w)) =
    Some {| galaxyObject := galaxyObject g;
            galaxyGeometry := galaxyGeometry g;
            rotation_y := (rotation_y g + Fin 0.0005)%js |}.
Proof.
  intros Hc Hg. unfold animate. simpl.
  destruct (for_loop_throwing _ _ _) as [ps|ps]; simpl; [|done].
  intros _. rewrite Hc. simpl. unfold rotateGalaxy. simpl. by rewrite Hg.
Qed.

(** A tick that throws leaves the galaxy as it is. *)
Lemma animate_thrown_galaxy (delta : number) (w : World) :
  returns (animate Math_random setHSL delta w) = false ->
  galaxyParticles (state_of (animate Math_random setHSL delta w)) =
    galaxyParticles w.
Proof.
  unfold animate. simpl.
  destruct (for_loop_throwing _ _ _) as [ps|ps]; simpl; [|done].
  discriminate.
Qed.

End ReturningRuns.

(** ** The phase transition, run by run *)

(** X19. In a run from [init] in which every tick returns, whatever the
    deltas and whatever else happens between the ticks,
    [createGalaxyParticles] is called by the first tick after whose clock
    update the explosion clock exceeds 10, and by no other event: once over
    the whole run, with the latch set at its end, if there is such a tick,
    and not at all if there is none. *)
Theorem galaxy_at_first_crossing (Math_random : nat -> number)
    (setHSL : number -> number -> number -> number * number * number)
    (events : list event) :
  ticks_return Math_random setHSL (init Math_random setHSL) events ->
  let w0 := init Math_random setHSL in
  creation_trace Math_random setHSL w0 events =
    first_only false (threshold_trace Math_random setHSL w0 events) /\
  galaxyCreations (run Math_random setHSL w0 events) =
    (if some_true (threshold_trace Math_random setHSL w0 events) then 1 else 0) /\
  created (galaxyParams (run Math_random setHSL w0 events)) =
    some_true (threshold_trace Math_random setHSL w0 events).
Proof.
  intros Hret w0.
  exact (traces_agree_returning Math_random setHSL w0 events Hret).
Qed.

Lemma write_finish_run_returns (Math_random : nat -> number)
    (setHSL : number -> number -> number -> number * number * number)
    (w : World) (d1 d2 : number) (n : nat) :
  consistent w ->
  ticks_return Math_random setHSL w
    [Frame d1; WriteParticleCount n; FinishParticleCount n; Frame d2].
Proof.
  intros Hw.
  destruct (animate_consistent Math_random setHSL d1 w Hw) as (w1 & Hret1 & _).
  cbn [ticks_return step]. rewrite Hret1. cbn [returns state_of].
  split; [reflexivity|]. split; [exact I|]. split; [exact I|].
  split; [|exact I].
  destruct (animate_consistent Math_random setHSL d2 _
              (onFinishChange_consistent Math_random setHSL n
                 (set_particleCount n w1))) as (w2 & -> & _).
  reflexivity.
Qed.

Lemma crossing_first (Math_random : nat -> number)
    (setHSL : number -> number -> number -> number * number * number)
    (w : World) (d t s : R) (rest : list event) :
  explosionTime (explosionParams w) = Fin t ->
  expansionSpeed (explosionParams w) = Fin s ->
  (10 < t + d * s)%R ->
  some_true (threshold_trace Math_random setHSL w (Frame (Fin d) :: rest)) = true.
Proof.
  intros Ht Hs Hlt. unfold some_true. cbn [threshold_trace existsb].
  unfold exceeds_threshold at 1. unfold step at 1.
  rewrite animate_clock, Ht, Hs. cbn [mul add gt].
  by rewrite bool_decide_eq_true_2.
Qed.

Lemma galaxy_at_first_crossing_witness :
  let events :=
    [Frame (Fin 11); WriteParticleCount 2; FinishParticleCount 2; Frame (Fin 1)] in
  let w0 := init halves grey in
  ticks_return halves grey w0 events /\
  (creation_trace halves grey w0 events =
     first_only false (threshold_trace halves grey w0 events) /\
   galaxyCreations (run halves grey w0 events) =
     (if some_true (threshold_trace halves grey w0 events) then 1 else 0) /\
   created (galaxyParams (run halves grey w0 events)) =
     some_true (threshold_trace halves grey w0 events)) /\
  some_true (threshold_trace halves grey w0 events) = true.
Proof.
  cbv zeta.
  pose proof (write_finish_run_returns halves grey (init halves grey)
                (Fin 11) (Fin 1) 2 (init_consistent halves grey)) as Hret.
  split; [exact Hret|]. split.
  - exact (galaxy_at_first_crossing halves grey _ Hret).
  - apply (crossing_first halves grey (init halves grey) 11 0.0 1.0);
      [reflexivity | reflexivity | lra].
Defined.

Lemma crossing_tick_throws (Math_random : nat -> number)
    (setHSL : number -> number -> number -> number * number * number)
    (w0 : World) (n : nat) (d t s : R) :
  consistent w0 ->
  particleCount (explosionParams w0) < n ->
  created (galaxyParams w0) = false ->
  galaxyCreations w0 = 0 ->
  galaxyParticles w0 = None ->
  explosionTime (explosionParams w0) = Fin t ->
  expansionSpeed (explosionParams w0) = Fin s ->
  (10 < t + d * s)%R ->
  let w1 := step Math_random setHSL w0 (WriteParticleCount n) in
  let w2 := step Math_random setHSL w1 (Frame (Fin d)) in
  let w3 := step Math_random setHSL w2 (FinishParticleCount n) in
  let w4 := step Math_random setHSL w3 (Frame (Fin 0)) in
  exceeds_threshold Math_random setHSL w1 (Frame (Fin d)) = true /\
  returns (animate Math_random setHSL (Fin d) w1) = false /\
  galaxyCreations w2 = 0 /\
  created (galaxyParams w2) = false /\
  galaxyParticles w2 = None /\
  galaxyCreations w4 = 1 /\
  created (galaxyParams w4) = true.
Proof.
  intros [Hv Hp] Hn Hc0 Hg0 Hgp0 Ht Hs Hlt w1 w2 w3 w4.
  assert (Hclock2 : explosionTime (explosionParams w2) = Fin (t + d * s)).
  { unfold w2, step. rewrite animate_clock. unfold w1, step. simpl.
    by rewrite Ht, Hs. }
  assert (Hex : exceeds_threshold Math_random setHSL w1 (Frame (Fin d)) = true).
  { unfold exceeds_threshold. fold w2. rewrite Hclock2. simpl.
    by apply bool_decide_eq_true_2. }
  assert (Hthrow : returns (animate Math_random setHSL (Fin d) w1) = false).
  { apply animate_inconsistent. unfold w1, step. simpl. lia. }
  assert (Hfires : fires Math_random setHSL (Fin d) w1 = false).
  { unfold fires. by rewrite Hthrow. }
  destruct (animate_latch Math_random setHSL (Fin d) w1) as (Hc2 & Hn2 & _).
  rewrite Hfires in Hc2, Hn2.
  assert (Hcreated2 : created (galaxyParams w2) = false).
  { unfold w2, step. rewrite Hc2. unfold w1. simpl. by rewrite Hc0. }
  assert (Hcount2 : galaxyCreations w2 = 0).
  { unfold w2, step. rewrite Hn2. unfold w1. simpl. lia. }
  assert (Hgalaxy2 : galaxyParticles w2 = None).
  { unfold w2, step. by rewrite animate_thrown_galaxy. }
  assert (Hw3 : consistent w3) by apply onFinishChange_consistent.
  destruct (animate_consistent Math_random setHSL (Fin 0) w3 Hw3)
    as (w' & Hret4 & _).
  assert (Hspeed3 : expansionSpeed (explosionParams w3) = Fin s).
  { change (expansionSpeed (explosionParams w3))
      with (expansionSpeed (explosionParams w2)).
    unfold w2, step.
    destruct (animate_keeps Math_random setHSL (Fin d) w1)
      as (_ & _ & _ & _ & _ & _ & -> & _).
    exact Hs. }
  assert (Hfires4 : fires Math_random setHSL (Fin 0) w3 = true).
  { unfold fires. rewrite Hret4.
    change (created (galaxyParams w3)) with (created (galaxyParams w2)).
    rewrite Hcreated2. cbn [returns negb andb].
    unfold exceeds_threshold, step. rewrite animate_clock, Hspeed3.
    change (explosionTime (explosionParams w3))
      with (explosionTime (explosionParams w2)).
    rewrite Hclock2. simpl. apply bool_decide_eq_true_2. lra. }
  destruct (animate_latch Math_random setHSL (Fin 0) w3) as (Hc4 & Hn4 & _).
  rewrite Hfires4 in Hc4, Hn4.
  change (galaxyCreations w3) with (galaxyCreations w2) in Hn4.
  rewrite Hcount2 in Hn4. rewrite orb_true_r in Hc4.
  repeat split; done.
Qed.

(** C3, at the run that breaks it: after [init], the controller of the
    particle count writes 11000, the change not finished, and a tick of
    delta 11 follows.  The tick advances the clock to 11, above the
    threshold, and throws in the position loop before the test: the first
    tick at which the clock exceeds the threshold does not create the
    galaxy.  The tick after the change is finished does. *)
Theorem first_crossing_tick_throws (Math_random : nat -> number)
    (setHSL : number -> number -> number -> number * number * number) :
  let w0 := init Math_random setHSL in
  let w1 := run Math_random setHSL w0 [WriteParticleCount 11000] in
  let w2 := run Math_random setHSL w0 [WriteParticleCount 11000; Frame (Fin 11)] in
  let w4 := run Math_random setHSL w0
              [WriteParticleCount 11000; Frame (Fin 11);
               FinishParticleCount 11000; Frame (Fin 0)] in
  exceeds_threshold Math_random setHSL w1 (Frame (Fin 11)) = true /\
  returns (animate Math_random setHSL (Fin 11) w1) = false /\
  galaxyCreations w2 = 0 /\
  created (galaxyParams w2) = false /\
  galaxyParticles w2 = None /\
  galaxyCreations w4 = 1 /\
  created (galaxyParams w4) = true.
Proof.
  cbv zeta. unfold run. cbn [fold_left].
  apply (crossing_tick_throws Math_random setHSL (init Math_random setHSL)
           11000 11 0.0 1.0); try reflexivity.
  - apply init_consistent.
  - change (particleCount (explosionParams (init Math_random setHSL)))
      with 10000.
    apply Nat.ltb_lt. vm_compute. reflexivity.
  - lra.
Qed.

(** ** A tick in any state *)

Lemma animate_reached (Math_random : nat -> number)
    (setHSL : number -> number -> number -> number * number * number)
    (delta : number) (w : World) (i : nat) (v : Vec.t) :
  i < particleCount (explosionParams w) ->
  explosionVelocities w !! i = Some v ->
  i * 3 + 2 < length (position (explosionGeometry w)) ->
  let w' := state_of (animate Math_random setHSL delta w) in
  cells (position (explosionGeometry w')) i =
    Some ((Vec.x v * explosionTime (explosionParams w'))%js,
          (Vec.y v * explosionTime (explosionParams w'))%js,
          (Vec.z v * explosionTime (explosionParams w'))%js).
Proof.
  intros Hi Hv Hfit. cbv zeta. rewrite animate_clock.
  set (t := (explosionTime (explosionParams w)
             + delta * expansionSpeed (explosionParams w))%js).
  destruct (position_loop_reached (explosionVelocities w)
              (fun v => ((Vec.x v * t)%js, (Vec.y v * t)%js, (Vec.z v * t)%js))
              (animateBody (explosionVelocities w) t)
              (fun _ _ => eq_refl)
              (particleCount (explosionParams w))
              (position (explosionGeometry w))) as (_ & _ & Hcells).
  specialize (Hcells i v Hi Hv Hfit).
  unfold animate. simpl. fold t.
  destruct (for_loop_throwing _ _ _) as [ps|ps]; simpl in *; [|done].
  match goal with |- context [rotateGalaxy ?X] =>
    destruct (rotateGalaxy_explosion X) as (_ & _ & -> & _) end.
  by destruct (negb (created (galaxyParams w)) && _).
Qed.

(** C5, as the script has it.  A tick does not look at its delta.  With a
    negative or a non-finite delta as with any other, in any state and
    whether the tick returns or throws, the clock becomes
    [explosionTime + delta * expansionSpeed], and every particle the
    position loop reaches (index below [particleCount], with a velocity and
    cells in the buffer) has its cells rewritten from its velocity and that
    clock: to [velocity * clock] in exact arithmetic, to the binary32
    rounding of that product in the arithmetic of the script (the last part
    of the statement, for every binary64 delta).  A negative delta under a
    positive speed does not move a finite clock forwards; a non-finite
    delta leaves the clock non-finite, and with it every cell rewritten. *)
Theorem delta_not_validated (Math_random : nat -> number)
    (setHSL : number -> number -> number -> number * number * number)
    (delta : number) (w : World) :
  let w' := state_of (animate Math_random setHSL delta w) in
  explosionTime (explosionParams w') =
    (explosionTime (explosionParams w)
     + delta * expansionSpeed (explosionParams w))%js /\
  (forall i v,
     i < particleCount (explosionParams w) ->
     explosionVelocities w !! i = Some v ->
     i * 3 + 2 < length (position (explosionGeometry w)) ->
     cells (position (explosionGeometry w')) i =
       Some ((Vec.x v * explosionTime (explosionParams w'))%js,
             (Vec.y v * explosionTime (explosionParams w'))%js,
             (Vec.z v * explosionTime (explosionParams w'))%js)) /\
  (forall d s t : R,
     delta = Fin d -> (d < 0)%R ->
     expansionSpeed (explosionParams w) = Fin s -> (0 < s)%R ->
     explosionTime (explosionParams w) = Fin t ->
     exists t' : R,
       explosionTime (explosionParams w') = Fin t' /\ (t' <= t)%R) /\
  (isFinite delta = false ->
     isFinite (explosionTime (explosionParams w')) = false /\
     forall i v,
       i < particleCount (explosionParams w) ->
       explosionVelocities w !! i = Some v ->
       i * 3 + 2 < length (position (explosionGeometry w)) ->
       exists x y z,
         cells (position (explosionGeometry w')) i = Some (x, y, z) /\
         isFinite x = false /\ isFinite y = false /\ isFinite z = false) /\
  (forall (fdelta : float) (e : IEEE.Explosion) (i : nat) (v : IEEE.Velocity),
     i < IEEE.particleCount e ->
     IEEE.explosionVelocities e !! i = Some v ->
     i * 3 + 2 < length (IEEE.position e) ->
     let e' := state_of (IEEE.animate fdelta e) in
     IEEE.explosionTime e' =
       (IEEE.explosionTime e + fdelta * IEEE.expansionSpeed e)%float /\
     cells (IEEE.position e') i =
       Some (IEEE.fround (IEEE.x v * IEEE.explosionTime e'),
             IEEE.fround (IEEE.y v * IEEE.explosionTime e'),
             IEEE.fround (IEEE.z v * IEEE.explosionTime e'))).
Proof.
  cbv zeta.
  pose proof (animate_clock Math_random setHSL delta w) as Hclock.
  split; [exact Hclock|]. split; [|split; [|split]]; cycle 3.
  { intros fdelta e i v Hi Hv Hfit.
    by destruct (float32_cells fdelta e i v Hi Hv Hfit) as (? & _ & ?). }
  - intros i v Hi Hv Hfit.
    exact (animate_reached Math_random setHSL delta w i v Hi Hv Hfit).
  - intros d s t Hdelta Hd Hspeed Hs Ht.
    rewrite Hclock, Hdelta, Hspeed, Ht. simpl.
    eexists; split; [reflexivity | nra].
  - intros Hnf.
    assert (Hclock' : isFinite
              (explosionTime
                 (explosionParams (state_of (animate Math_random setHSL delta w)))) =
              false).
    { rewrite Hclock. by apply add_not_finite_r, mul_not_finite_l. }
    split; [exact Hclock'|]. intros i v Hi Hv Hfit.
    rewrite (animate_reached Math_random setHSL delta w i v Hi Hv Hfit).
    do 3 eexists. split; [reflexivity|].
    repeat split; by apply mul_not_finite_r.
Qed.

(** ** The galaxy once it is created *)

(** C8, as the script has it.  Once the galaxy is created, no event of a
    run, tick or other, changes its position, colour and size buffers, and
    a galaxy particle has no velocity.  The galaxy does get a per-tick
    update: every tick that returns adds 0.0005 to [rotation.y] of the
    galaxy object, so that the galaxy turns as a whole. *)
Theorem galaxy_buffers_static_object_turns (Math_random : nat -> number)
    (setHSL : number -> number -> number -> number * number * number)
    (w : World) (events : list event) :
  created (galaxyParams w) = true ->
  galaxyBuffers (run Math_random setHSL w events) = galaxyBuffers w /\
  forall delta g,
    galaxyParticles w = Some g ->
    returns (animate Math_random setHSL delta w) = true ->
    galaxyParticles (state_of (animate Math_random setHSL delta w)) =
      Some {| galaxyObject := galaxyObject g;
              galaxyGeometry := galaxyGeometry g;
              rotation_y := (rotation_y g + Fin 0.0005)%js |}.
Proof.
  intros Hc. split.
  - by destruct (run_latched Math_random setHSL w events Hc) as (_ & _ & ->).
  - intros delta g Hg Hret. by apply animate_turns.
Qed.

Lemma galaxy_buffers_static_object_turns_witness :
  created (galaxyParams with_galaxy) = true /\
  galaxyBuffers
    (run halves grey with_galaxy
       [Frame (Fin 1); FinishParticleCount 2; Frame (Fin 3)]) =
    galaxyBuffers with_galaxy /\
  forall delta g,
    galaxyParticles with_galaxy = Some g ->
    returns (animate halves grey delta with_galaxy) = true ->
    galaxyParticles (state_of (animate halves grey delta with_galaxy)) =
      Some {| galaxyObject := galaxyObject g;
              galaxyGeometry := galaxyGeometry g;
              rotation_y := (rotation_y g + Fin 0.0005)%js |}.
Proof.
  split; [reflexivity|].
  apply (galaxy_buffers_static_object_turns halves grey with_galaxy
           [Frame (Fin 1); FinishParticleCount 2; Frame (Fin 3)]).
  reflexivity.
Defined.

(** C8 as stated, at one tick on a state with a galaxy: the tick returns
    and the galaxy object is not as it was, its [rotation.y] being 0.0005
    where it was 0. *)
Lemma galaxy_gets_no_update_counterexample :
  returns (animate halves grey (Fin 1) with_galaxy) = true /\
  rotation_y <$> galaxyParticles with_galaxy = Some (Fin 0) /\
  rotation_y <$> galaxyParticles (state_of (animate halves grey (Fin 1) with_galaxy)) =
    Some (Fin 0 + Fin 0.0005)%js /\
  galaxyParticles (state_of (animate halves grey (Fin 1) with_galaxy)) <>
    galaxyParticles with_galaxy.
Proof.
  assert (Hw : consistent with_galaxy) by (split; reflexivity).
  destruct (animate_consistent halves grey (Fin 1) with_galaxy Hw)
    as (w' & Hret & _).
  assert (Hreturns : returns (animate halves grey (Fin 1) with_galaxy) = true)
    by (by rewrite Hret).
  pose proof (animate_turns halves grey (Fin 1) with_galaxy _ eq_refl eq_refl
                Hreturns) as Hg.
  split; [exact Hreturns|]. split; [reflexivity|]. rewrite Hg.
  split; [reflexivity|].
  intros H. injection H as H. lra.
Qed.

Lemma iter_add_exact (n : nat) (r : R) :
  Nat.iter n (fun y => (y + Fin 0.0005)%js) (Fin r) = Fin (r + 0.0005 * INR n).
Proof.
  induction n as [|n IH].
  - simpl. f_equal. lra.
  - rewrite Nat.iter_succ, IH, S_INR. simpl. f_equal. lra.
Qed.

Lemma step_turns (Math_random : nat -> number)
    (setHSL : number -> number -> number -> number * number * number)
    (w : World) (e : event) (g : GalaxyPoints) :
  created (galaxyParams w) = true ->
  galaxyParticles w = Some g ->
  match e with
  | Frame delta => returns (animate Math_random setHSL delta w) = true
  | _ => True
  end ->
  galaxyParticles (step Math_random setHSL w e) =
    Some {| galaxyObject := galaxyObject g;
            galaxyGeometry := galaxyGeometry g;
            rotation_y :=
              match e with
              | Frame _ => (rotation_y g + Fin 0.0005)%js
              | _ => rotation_y g
              end |}.
Proof.
  intros Hc Hg He.
  destruct e as [delta|v|v|v|v|v]; simpl;
    try (rewrite Hg; by destruct g).
  by apply animate_turns.
Qed.

(** X13. The galaxy turns by the tick, not by the time: over a run in which
    every tick returns, from a state with a galaxy, [rotation.y] of the
    galaxy is the number got by adding 0.0005 to it once for each tick of
    the run, whatever the deltas, and the object and its buffers are the
    same.  In exact arithmetic that number is the old one plus 0.0005 times
    the number of ticks. *)
Theorem galaxy_rotation (Math_random : nat -> number)
    (setHSL : number -> number -> number -> number * number * number)
    (w : World) (events : list event) (g : GalaxyPoints) :
  created (galaxyParams w) = true ->
  galaxyParticles w = Some g ->
  ticks_return Math_random setHSL w events ->
  galaxyParticles (run Math_random setHSL w events) =
    Some {| galaxyObject := galaxyObject g;
            galaxyGeometry := galaxyGeometry g;
            rotation_y :=
              Nat.iter (frame_count events) (fun y => (y + Fin 0.0005)%js)
                (rotation_y g) |} /\
  forall r : R,
    rotation_y g = Fin r ->
    Nat.iter (frame_count events) (fun y => (y + Fin 0.0005)%js) (rotation_y g) =
      Fin (r + 0.0005 * INR (frame_count events)).
Proof.
  intros Hc Hg Hret. split.
  - revert w g Hc Hg Hret.
    induction events as [|e events IH]; intros w g Hc Hg Hret.
    + simpl. rewrite Hg. by destruct g.
    + destruct Hret as [He Hret]. rewrite run_cons.
      pose proof (step_turns Math_random setHSL w e g Hc Hg He) as Hg1.
      destruct (step_latch Math_random setHSL w e) as (Hc1 & _).
      rewrite Hc in Hc1. simpl in Hc1.
      rewrite (IH _ _ Hc1 Hg1 Hret). cbn [galaxyObject galaxyGeometry rotation_y].
      destruct e as [delta|v|v|v|v|v]; cbn [frame_count]; try reflexivity.
      by rewrite Nat.iter_succ_r.
  - intros r ->. apply iter_add_exact.
Qed.

Lemma galaxy_rotation_witness :
  let events :=
    [Frame (Fin 1); WriteParticleCount 2; FinishParticleCount 2; Frame (Fin 30)] in
  (created (galaxyParams with_galaxy) = true /\
   ticks_return halves grey with_galaxy events) /\
  galaxyParticles (run halves grey with_galaxy events) =
    Some {| galaxyObject := 3;
            galaxyGeometry :=
              {| position := [Fin 60; Fin 0; Fin 0];
                 color := [Fin 1; Fin 1; Fin 1];
                 size := [Fin 2.5] |};
            rotation_y :=
              Nat.iter (frame_count events) (fun y => (y + Fin 0.0005)%js) (Fin 0) |} /\
  forall r : R,
    Fin 0 = Fin r ->
    Nat.iter (frame_count events) (fun y => (y + Fin 0.0005)%js) (Fin 0) =
      Fin (r + 0.0005 * INR (frame_count events)).
Proof.
  cbv zeta.
  assert (Hw : consistent with_galaxy) by (split; reflexivity).
  pose proof (write_finish_run_returns halves grey with_galaxy (Fin 1) (Fin 30) 2 Hw)
    as Hret.
  split; [split; [reflexivity | exact Hret]|].
  exact (galaxy_rotation halves grey with_galaxy _ _ eq_refl eq_refl Hret).
Defined.
